(** * FastCGI gateway and OAuth state tokens: a shallow embedding

    The development follows the two listings of the repository:
    - [gluon/contrib/gateways/fcgi.py]: [Record], [_decodeParams],
      [Connection], [Request], [_finishRequest], [_handleApplicationError];
    - [gluon/contrib/login_methods/oauth20_account.py]: [generate_state],
      [validate_state].

    Python integers are [Z]; a Python [str] holding protocol data is a list
    of bytes; a [StringIO] is a buffer with a position; a [dict] is an
    association list in insertion order. *)

From Stdlib Require Import ZArith QArith Qround List Lia Lqa Bool.
From Stdlib Require Import Strings.Byte.
From Stdlib Require Import Strings.String Strings.Ascii.
From Stdlib Require Import DecimalString DecimalZ DecimalPos.
Import ListNotations.
Close Scope Q_scope.
Open Scope Z_scope.

Module Fcgi.

(** ** Byte strings *)

Definition bytes := list byte.

(** [len(s)] *)
Definition len {A : Type} (s : list A) : Z := Z.of_nat (List.length s).

(** ["".join(chunks)] *)
Definition join (chunks : list bytes) : bytes := List.concat chunks.

Definition byte_to_Z (b : byte) : Z := Z.of_N (Byte.to_N b).

(** The byte whose value is [z]; meant for [0 <= z < 256]. *)
Definition byte_of_Z (z : Z) : byte :=
  match Byte.of_N (Z.to_N (z mod 256)) with
  | Some b => b
  | None => x00
  end.

Definition bytes_eqb (a b : bytes) : bool :=
  if list_eq_dec Byte.byte_eq_dec a b then true else false.

(** ** Protocol constants *)

Definition FCGI_VERSION_1 : Z := 1.

Definition FCGI_BEGIN_REQUEST : Z := 1.
Definition FCGI_ABORT_REQUEST : Z := 2.
Definition FCGI_END_REQUEST : Z := 3.
Definition FCGI_PARAMS : Z := 4.
Definition FCGI_STDIN : Z := 5.
Definition FCGI_STDOUT : Z := 6.
Definition FCGI_STDERR : Z := 7.
Definition FCGI_DATA : Z := 8.
Definition FCGI_GET_VALUES : Z := 9.
Definition FCGI_GET_VALUES_RESULT : Z := 10.

Definition FCGI_RESPONDER : Z := 1.
Definition FCGI_AUTHORIZER : Z := 2.
Definition FCGI_FILTER : Z := 3.

(** ** class Record *)

Record FcgiRecord : Type := mkRecord {
  version : Z;
  type : Z;
  requestId : Z;
  content : bytes;
  contentLength : Z
}.

(** [Record.__init__(self, type, requestId, content='')] *)
Definition Record_init (ty reqId : Z) (c : bytes) : FcgiRecord :=
  {| version := FCGI_VERSION_1;
     type := ty;
     requestId := reqId;
     content := c;
     contentLength := len c |}.

(** [Record(type, requestId)]: the default content is the empty string. *)
Definition Record_init_default (ty reqId : Z) : FcgiRecord :=
  Record_init ty reqId [].

(** ** StringIO

    A buffer and a position.  [write] overwrites from the position on and
    extends the buffer (padding with NUL when the position is past the end);
    [read] takes from the position on; [getvalue] is the whole buffer. *)

Record StringIO : Type := mkStringIO {
  sio_buf : bytes;
  sio_pos : nat
}.

(** [StringIO()] *)
Definition StringIO_new : StringIO := {| sio_buf := []; sio_pos := 0 |}.

(** [StringIO(initial)]: the position starts at 0. *)
Definition StringIO_of (s : bytes) : StringIO := {| sio_buf := s; sio_pos := 0 |}.

Definition sio_write (s : bytes) (f : StringIO) : StringIO :=
  let pad := repeat x00 (sio_pos f - List.length (sio_buf f)) in
  {| sio_buf := firstn (sio_pos f) (sio_buf f ++ pad) ++ s
                ++ skipn (sio_pos f + List.length s) (sio_buf f);
     sio_pos := (sio_pos f + List.length s)%nat |}.

(** [stream.read(n)]: at most [n] bytes; everything left when [n < 0]. *)
Definition sio_read (n : Z) (f : StringIO) : bytes * StringIO :=
  let rest := skipn (sio_pos f) (sio_buf f) in
  let r := if n <? 0 then rest else firstn (Z.to_nat n) rest in
  (r, {| sio_buf := sio_buf f; sio_pos := (sio_pos f + List.length r)%nat |}).

Definition sio_getvalue (f : StringIO) : bytes := sio_buf f.

(** The position is at the end of the buffer, as it is after [StringIO()]
    and any number of writes. *)
Definition sio_at_end (f : StringIO) : Prop := sio_pos f = List.length (sio_buf f).

(** What is left to read. *)
Definition sio_remaining (f : StringIO) : bytes := skipn (sio_pos f) (sio_buf f).

(** ** Exceptions and a small state-and-exception monad

    A computation takes the state, and gives the state afterwards together
    with either a value or the exception that was raised: what was done to
    the state before the exception stays done. *)

Inductive exn : Type :=
| ProtocolError_TruncatedStream
| ProtocolError_BadHeader
| ProtocolError_LengthMismatch
| ProtocolError_RecordTooLarge
| ConnectionClosed
| StructError.

Inductive result (A : Type) : Type :=
| Ok (a : A)
| Raise (e : exn).

Arguments Ok {A} _.
Arguments Raise {A} _.

Definition M (S A : Type) : Type := S -> result A * S.

Definition ret {S A : Type} (a : A) : M S A := fun s => (Ok a, s).

Definition raise {S A : Type} (e : exn) : M S A := fun s => (Raise e, s).

Definition bind {S A B : Type} (m : M S A) (k : A -> M S B) : M S B :=
  fun s =>
    match m s with
    | (Ok a, s') => k a s'
    | (Raise e, s') => (Raise e, s')
    end.

Notation "x <- m ;; k" := (bind m (fun x => k))
  (at level 61, m at next level, right associativity).
Notation "m ;;; k" := (bind m (fun _ => k))
  (at level 61, right associativity).

(** [stream.read(n)] as a computation on the stream. *)
Definition read (n : Z) : M StringIO bytes :=
  fun f => let (r, f') := sio_read n f in (Ok r, f').

(** ** dict

    Insertion-ordered: assigning to a key that is present replaces its value
    in place, assigning to a new key appends it. *)

Definition dict := list (bytes * bytes).

Fixpoint dict_set (k v : bytes) (d : dict) : dict :=
  match d with
  | [] => [(k, v)]
  | (k', v') :: d' =>
      if bytes_eqb k' k then (k, v) :: d' else (k', v') :: dict_set k v d'
  end.

Fixpoint dict_get (k : bytes) (d : dict) : option bytes :=
  match d with
  | [] => None
  | (k', v') :: d' => if bytes_eqb k' k then Some v' else dict_get k d'
  end.

(** [dict.items()] *)
Definition items (d : dict) : list (bytes * bytes) := d.

(** The dict obtained by assigning the pairs one after another. *)
Definition dict_of_pairs (pairs : list (bytes * bytes)) : dict :=
  fold_left (fun d p => dict_set (fst p) (snd p) d) pairs [].

(** ** Name/value pairs *)

(** Modelled from the spec: one length field of the name/value stream, read
    by the helper [_readLengths] that the listing calls but does not
    contain.  "1 byte if high bit clear, i.e. value <= 127; else 4 bytes
    big-endian with high bit set, masked off".  [None] when the stream is
    at its end; a 4-byte field cut short is a truncated stream. *)
Definition read_length : M StringIO (option Z) :=
  b <- read 1 ;;
  match b with
  | [] => ret None
  | b0 :: _ =>
      if byte_to_Z b0 <? 128 then ret (Some (byte_to_Z b0))
      else
        r <- read 3 ;;
        match r with
        | [b1; b2; b3] =>
            ret (Some (Z.lor (Z.shiftl (Z.land (byte_to_Z b0) 127) 24)
                      (Z.lor (Z.shiftl (byte_to_Z b1) 16)
                      (Z.lor (Z.shiftl (byte_to_Z b2) 8) (byte_to_Z b3)))))
        | _ => raise ProtocolError_TruncatedStream
        end
  end.

(** Modelled from the spec: [_readLengths(stream)], absent from the
    listing.  It reads the name length, then the value length.  A stream
    that ends between two pairs is a complete stream for the spec, and the
    loop of [_decodeParams] stops on the lengths (0, 0) only: at the end of
    the stream the lengths are (0, 0).  A stream that ends after the name
    length is truncated. *)
Definition _readLengths : M StringIO (Z * Z) :=
  nl <- read_length ;;
  match nl with
  | None => ret (0, 0)
  | Some nameLen =>
      vl <- read_length ;;
      match vl with
      | None => raise ProtocolError_TruncatedStream
      | Some valueLen => ret (nameLen, valueLen)
      end
  end.

(** The [while True] loop of [_decodeParams]; [None] when the fuel runs
    out before the loop ends. *)
Fixpoint decodeParams_loop (fuel : nat) (params : dict) (stream : StringIO)
  : option (result dict * StringIO) :=
  match fuel with
  | O => None
  | S fuel' =>
      match _readLengths stream with
      | (Raise e, s) => Some (Raise e, s)
      | (Ok (nameLen, valueLen), s) =>
          if (nameLen =? 0) && (valueLen =? 0) then Some (Ok params, s)
          else
            let (name, s1) := sio_read nameLen s in
            let (value, s2) := sio_read valueLen s1 in
            decodeParams_loop fuel' (dict_set name value params) s2
      end
  end.

(** [_decodeParams(self, stream)].  Every turn of the loop that does not
    leave it reads at least one byte, so one unit of fuel per byte left,
    and one more, is enough ([decodeParams_returns]). *)
Definition _decodeParams (stream : StringIO) : option (result dict * StringIO) :=
  decodeParams_loop (S (List.length (sio_remaining stream))) [] stream.

(** Modelled from the spec: one length field as the encoder writes it. *)
Definition encode_length (n : Z) : bytes :=
  if n <? 128 then [byte_of_Z n]
  else [byte_of_Z (Z.lor (Z.shiftr n 24) 128);
        byte_of_Z (Z.land (Z.shiftr n 16) 255);
        byte_of_Z (Z.land (Z.shiftr n 8) 255);
        byte_of_Z (Z.land n 255)].

(** Modelled from the spec: [encodeNameValues(pairs)], absent from the
    listing: for each pair the name length, the value length, the name and
    the value, in the order in which [_decodeParams] reads them. *)
Definition encodeNameValues (pairs : list (bytes * bytes)) : bytes :=
  flat_map (fun p => encode_length (len (fst p)) ++ encode_length (len (snd p))
                     ++ fst p ++ snd p) pairs.

(** A length is encodable when it fits the 31 bits of the long form. *)
Definition encodable (pairs : list (bytes * bytes)) : bool :=
  forallb (fun p => (len (fst p) <? 2 ^ 31) && (len (snd p) <? 2 ^ 31)) pairs.

Definition is_empty {A : Type} (s : list A) : bool :=
  match s with [] => true | _ :: _ => false end.

(** No pair has both an empty name and an empty value. *)
Definition no_empty_pair (pairs : list (bytes * bytes)) : bool :=
  forallb (fun p => negb (is_empty (fst p) && is_empty (snd p))) pairs.

(** What [_decodeParams] returns or raises, without the stream. *)
Definition decoded (stream : StringIO) : option (result dict) :=
  option_map fst (_decodeParams stream).

(** No name occurs in two pairs. *)
Fixpoint distinct_names (pairs : list (bytes * bytes)) : bool :=
  match pairs with
  | [] => true
  | p :: ps =>
      negb (existsb (fun q => bytes_eqb (fst q) (fst p)) ps) && distinct_names ps
  end.

(** The name occurs in none of the pairs. *)
Definition absent (name : bytes) (pairs : list (bytes * bytes)) : bool :=
  negb (existsb (fun q => bytes_eqb (fst q) name) pairs).

(** [m] run on [f] returns [a] and leaves [rest] to read. *)
Definition reads {A : Type} (m : M StringIO A) (f : StringIO) (a : A)
  (rest : bytes) : Prop :=
  exists f', m f = (Ok a, f') /\ sio_remaining f' = rest.

(** ** class Connection

    The socket is external: its state is any type [Sock], and
    [sendall sock data] gives the socket afterwards and whether the call
    returned ([true]) or raised ([false]). *)

Section Connection.

Variable Sock : Type.
Variable Addr : Type.
Variable sendall : Sock -> bytes -> Sock * bool.

Record Connection : Type := mkConnection {
  _sock : Sock;
  _addr : Addr;
  _writeBuffer : list bytes;
  _writeBufferSize : Z
}.

(** [Connection.__init__(self, sock, addr)] *)
Definition Connection_init (sock : Sock) (addr : Addr) : Connection :=
  {| _sock := sock; _addr := addr; _writeBuffer := []; _writeBufferSize := 0 |}.

(** [Connection.write(self, data)] *)
Definition write (data : bytes) (c : Connection) : Connection :=
  {| _sock := _sock c;
     _addr := _addr c;
     _writeBuffer := _writeBuffer c ++ [data];
     _writeBufferSize := _writeBufferSize c + len data |}.

(** [Connection.flush(self)]: the connection afterwards and whether the
    call returned ([true]) or [sendall] raised ([false]); in the latter
    case the two resetting assignments are not reached. *)
Definition flush (c : Connection) : Connection * bool :=
  match _writeBuffer c with
  | [] => (c, true)
  | _ :: _ =>
      let data := join (_writeBuffer c) in
      let (sock', ok) := sendall (_sock c) data in
      if ok then
        ({| _sock := sock'; _addr := _addr c;
            _writeBuffer := []; _writeBufferSize := 0 |}, true)
      else
        ({| _sock := sock'; _addr := _addr c;
            _writeBuffer := _writeBuffer c;
            _writeBufferSize := _writeBufferSize c |}, false)
  end.

(** Sum of the lengths of the buffered chunks. *)
Definition chunks_size (chunks : list bytes) : Z :=
  fold_right (fun d acc => len d + acc) 0 chunks.

Definition buffer_inv (c : Connection) : Prop :=
  _writeBufferSize c = chunks_size (_writeBuffer c).

(** The connections a program can build: a fresh one, then writes and
    flushes, whether the flush returned or raised. *)
Inductive reachable : Connection -> Prop :=
| reach_init : forall sock addr, reachable (Connection_init sock addr)
| reach_write : forall c data, reachable c -> reachable (write data c)
| reach_flush : forall c, reachable c -> reachable (fst (flush c)).

End Connection.

Arguments _sock {Sock Addr} _.
Arguments _addr {Sock Addr} _.
Arguments _writeBuffer {Sock Addr} _.
Arguments _writeBufferSize {Sock Addr} _.
Arguments Connection_init {Sock Addr} _ _.
Arguments write {Sock Addr} _ _.
Arguments flush {Sock Addr} _ _.
Arguments buffer_inv {Sock Addr} _.

(** ** class Request *)

Module Request.

Record t : Type := mk {
  requestId : Z;
  role : option Z;
  flags : Z;
  aborted : bool;
  stdin : StringIO;
  stdout : StringIO;
  stderr : StringIO;
  data : StringIO
}.

(** [Request.__init__(self, conn, reqId)]; the back reference [_conn] is
    not read by any function below and is left out of the record. *)
Definition init (reqId : Z) : t :=
  {| requestId := reqId;
     role := None;
     flags := 0;
     aborted := false;
     stdin := StringIO_new;
     stdout := StringIO_new;
     stderr := StringIO_new;
     data := StringIO_new |}.

Definition set_stdout (f : StringIO) (r : t) : t :=
  {| requestId := requestId r; role := role r; flags := flags r;
     aborted := aborted r; stdin := stdin r; stdout := f;
     stderr := stderr r; data := data r |}.

Definition set_stderr (f : StringIO) (r : t) : t :=
  {| requestId := requestId r; role := role r; flags := flags r;
     aborted := aborted r; stdin := stdin r; stdout := stdout r;
     stderr := f; data := data r |}.

End Request.

(** ** Response streaming *)

(** One call [self._sendRecord(type, requestId, content)].  The listing
    does not contain [_sendRecord]; what the handler emits is observed as
    the sequence of these calls. *)
Record Sent : Type := mkSent {
  sent_type : Z;
  sent_requestId : Z;
  sent_content : bytes
}.

Definition _sendRecord (ty reqId : Z) (c : bytes) : M (list Sent) unit :=
  fun log => (Ok tt, log ++ [mkSent ty reqId c]).

Definition is_uchar (z : Z) : bool := (0 <=? z) && (z <? 256).

(** [struct.pack('!BBxxxxxx', a, b)]: two unsigned bytes and six pad bytes;
    [struct.error] when an argument is not in 0..255. *)
Definition struct_pack_BBx6 {S : Type} (a b : Z) : M S bytes :=
  if is_uchar a && is_uchar b
  then ret [byte_of_Z a; byte_of_Z b; x00; x00; x00; x00; x00; x00]
  else raise StructError.

Section Handler.

(** The constant [FCGI_REQUEST_COMPLETE] is used by the listing and not
    defined in it. *)
Variable FCGI_REQUEST_COMPLETE : Z.

(** [_finishRequest(self, req)] *)
Definition _finishRequest (req : Request.t) : M (list Sent) unit :=
  let stdout_data := sio_getvalue (Request.stdout req) in
  (if is_empty stdout_data then ret tt
   else _sendRecord FCGI_STDOUT (Request.requestId req) stdout_data) ;;;
  _sendRecord FCGI_STDOUT (Request.requestId req) [] ;;;
  let stderr_data := sio_getvalue (Request.stderr req) in
  (if is_empty stderr_data then ret tt
   else _sendRecord FCGI_STDERR (Request.requestId req) stderr_data ;;;
        _sendRecord FCGI_STDERR (Request.requestId req) []) ;;;
  endReq <- struct_pack_BBx6 0 FCGI_REQUEST_COMPLETE ;;
  _sendRecord FCGI_END_REQUEST (Request.requestId req) endReq.

End Handler.

(** The records that sending [data] contributes: none when it is empty. *)
Definition framed (ty reqId : Z) (data : bytes) : list Sent :=
  if is_empty data then [] else [mkSent ty reqId data].

(** The body of END_REQUEST as [_finishRequest] packs it: the application
    status in the first byte, the protocol status in the second. *)
Definition app_status (body : bytes) : Z := byte_to_Z (nth 0 body x00).
Definition protocol_status (body : bytes) : Z := byte_to_Z (nth 1 body x00).

(** The response in the words of the spec: the stdout content as STDOUT
    records, a zero-length STDOUT record, then, only when there is stderr
    content, that content as STDERR records and a zero-length STDERR
    record, and last one END_REQUEST record with the given body. *)
Definition response_sequence (req : Request.t) (body : bytes) : list Sent :=
  let reqId := Request.requestId req in
  let out := sio_getvalue (Request.stdout req) in
  let err := sio_getvalue (Request.stderr req) in
  framed FCGI_STDOUT reqId out ++ [mkSent FCGI_STDOUT reqId []]
  ++ (if is_empty err then []
      else framed FCGI_STDERR reqId err ++ [mkSent FCGI_STDERR reqId []])
  ++ [mkSent FCGI_END_REQUEST reqId body].

(** How many of the records sent have the given type. *)
Definition count_type (ty : Z) (l : list Sent) : nat :=
  List.length (filter (fun s => sent_type s =? ty) l).

(** ** Application errors *)

Definition str_lit (s : String.string) : bytes := String.list_byte_of_string s.

Definition CRLF : bytes := [x0d; x0a].
Definition LF : bytes := [x0a].

(** [f"Application error: {str(error)}\n"], from [str(error)]. *)
Definition application_error_message (error_str : bytes) : bytes :=
  str_lit "Application error: "%string ++ error_str ++ LF.

(** ["Status: 500 Internal Server Error\r\n\r\n"] *)
Definition response_500 : bytes :=
  str_lit "Status: 500 Internal Server Error"%string ++ CRLF ++ CRLF.

(** [_handleApplicationError(self, req, error)]: the request afterwards;
    the error enters through [str(error)]. *)
Definition _handleApplicationError (req : Request.t) (error_str : bytes)
  : Request.t :=
  let req1 :=
    Request.set_stderr
      (sio_write (application_error_message error_str) (Request.stderr req))
      req in
  let response := response_500 in
  Request.set_stdout (sio_write response (Request.stdout req1)) req1.

(** Response output has been started: the request's stdout is not empty. *)
Definition response_started (req : Request.t) : bool :=
  negb (is_empty (sio_getvalue (Request.stdout req))).

(** ** Record codec *)

Section RecordCodec.

(** The spec names a frame bound for content plus padding and gives no
    value for it. *)
Variable frameBound : Z.

(** Modelled from the spec: padding "to the next multiple of 8". *)
Definition padding_for (n : Z) : Z := (- n) mod 8.

(** Modelled from the spec: a 16-bit field of the header, "big-endian". *)
Definition be16 (n : Z) : bytes :=
  [byte_of_Z (Z.shiftr n 8); byte_of_Z (Z.land n 255)].

(** Modelled from the spec: the value of a big-endian 16-bit field. *)
Definition un_be16 (hi lo : byte) : Z :=
  Z.lor (Z.shiftl (byte_to_Z hi) 8) (byte_to_Z lo).

(** Modelled from the spec: [encodeRecord(type, requestId, content)],
    absent from the listing.  The header is "version(1) type(1)
    requestId(2, big-endian) contentLength(2, big-endian) paddingLength(1)
    reserved(1)", then the content and the padding; content above 65535
    bytes is not encoded. *)
Definition encodeRecord (ty reqId : Z) (c : bytes) : result bytes :=
  if len c <=? 65535 then
    let pad := padding_for (len c) in
    Ok ([byte_of_Z FCGI_VERSION_1; byte_of_Z ty] ++ be16 reqId ++ be16 (len c)
        ++ [byte_of_Z pad; x00]
        ++ c ++ repeat x00 (Z.to_nat pad))
  else Raise ProtocolError_RecordTooLarge.

(** Modelled from the spec: [encode(record)], that is [encodeRecord] on the
    fields of the record. *)
Definition encode (r : FcgiRecord) : result bytes :=
  encodeRecord (type r) (requestId r) (content r).

(** Modelled from the spec: [decodeHeader(bytes[8])], absent from the
    listing: "(version, type, requestId, contentLength, paddingLength);
    fails with ProtocolError(BadHeader) if version is not the supported
    version or contentLength + paddingLength would exceed the frame
    bound". *)
Definition decodeHeader (h : bytes) : result (Z * Z * Z * Z * Z) :=
  match h with
  | [v; ty; id1; id0; cl1; cl0; pl; _] =>
      let contentLen := un_be16 cl1 cl0 in
      let paddingLen := byte_to_Z pl in
      if (byte_to_Z v =? FCGI_VERSION_1) && (contentLen + paddingLen <=? frameBound)
      then Ok (byte_to_Z v, byte_to_Z ty, un_be16 id1 id0, contentLen, paddingLen)
      else Raise ProtocolError_BadHeader
  | _ => Raise ProtocolError_BadHeader
  end.

(** A result as a computation that leaves the state alone. *)
Definition lift {S A : Type} (r : result A) : M S A := fun s => (r, s).

(** Modelled from the spec: [readRecord()], absent from the listing, on a
    stream in place of the socket: "exactly one framed record (header, then
    content+padding of declared lengths); fails with ConnectionClosed on
    EOF before a header, or ProtocolError on a malformed header".  The
    record is built by [Record(type, requestId, content)]. *)
Definition decode : M StringIO FcgiRecord :=
  h <- read 8 ;;
  if is_empty h then raise ConnectionClosed
  else
    hdr <- lift (decodeHeader h) ;;
    let '(_, ty, reqId, contentLen, paddingLen) := hdr in
    c <- read contentLen ;;
    p <- read paddingLen ;;
    if (len c =? contentLen) && (len p =? paddingLen)
    then ret (Record_init ty reqId c)
    else raise ProtocolError_LengthMismatch.

(** Modelled from the spec: [n] calls of [readRecord()], one after the
    other. *)
Fixpoint decode_many (n : nat) : M StringIO (list FcgiRecord) :=
  match n with
  | O => ret []
  | S n' => r <- decode ;; rs <- decode_many n' ;; ret (r :: rs)
  end.

(** Modelled from the spec: the split of a payload "into multiple records
    of the same type and request id": pieces of 65535 bytes and a last,
    shorter one; "one or more" records, so one piece for an empty payload.
    The fuel is the length of the payload. *)
Fixpoint split_payload (fuel : nat) (payload : bytes) : list bytes :=
  match fuel with
  | O => [payload]
  | S fuel' =>
      if len payload <=? 65535 then [payload]
      else firstn (Z.to_nat 65535) payload
           :: split_payload fuel' (skipn (Z.to_nat 65535) payload)
  end.

(** Modelled from the spec: the pieces of a payload. *)
Definition chunks (payload : bytes) : list bytes :=
  split_payload (List.length payload) payload.

(** Modelled from the spec: the encodings of the pieces, one after the
    other, as [write(requestId, type, payload)] enqueues them. *)
Fixpoint encode_all (ty reqId : Z) (cs : list bytes) : result bytes :=
  match cs with
  | [] => Ok []
  | c :: cs' =>
      match encodeRecord ty reqId c, encode_all ty reqId cs' with
      | Ok b, Ok bs => Ok (b ++ bs)
      | Raise e, _ => Raise e
      | _, Raise e => Raise e
      end
  end.

(** Modelled from the spec: the encoding of a payload of any length. *)
Definition encodeChunked (ty reqId : Z) (payload : bytes) : result bytes :=
  encode_all ty reqId (chunks payload).

(** A record as [Record(type, requestId, content)] builds it, with fields
    that fit the header. *)
Definition valid_record (r : FcgiRecord) : Prop :=
  r = Record_init (type r) (requestId r) (content r) /\
  0 <= type r < 256 /\ 0 <= requestId r < 65536 /\ len (content r) <= 65535.

End RecordCodec.

(** ** Concrete inputs *)

(** A socket that accepts everything and keeps what was sent. *)
Definition sendall_ok (sock : bytes) (data : bytes) : bytes * bool :=
  (sock ++ data, true).

(** A socket on which every send raises. *)
Definition sendall_broken (sock : bytes) (data : bytes) : bytes * bool :=
  (sock, false).

(** A connection after two writes. *)
Definition conn_two_writes : Connection bytes unit :=
  write ["b"%byte; "c"%byte] (write ["a"%byte] (Connection_init [] tt)).

(** A request with output on both streams. *)
Definition req_out_err : Request.t :=
  Request.set_stderr (sio_write (str_lit "warn"%string) StringIO_new)
    (Request.set_stdout (sio_write (str_lit "hello"%string) StringIO_new)
       (Request.init 1)).

(** A request whose response has been started. *)
Definition req_started : Request.t :=
  Request.set_stdout
    (sio_write (str_lit "Status: 200 OK"%string ++ CRLF ++ CRLF
                ++ str_lit "hello"%string) StringIO_new)
    (Request.init 1).

(** Two pairs with the same name. *)
Definition pairs_dup : list (bytes * bytes) :=
  [(str_lit "a"%string, str_lit "1"%string);
   (str_lit "a"%string, str_lit "2"%string)].

(** A pair with an empty name and an empty value, then another pair. *)
Definition pairs_empty_first : list (bytes * bytes) :=
  [([], []); (str_lit "b"%string, str_lit "2"%string)].

(** A name bound twice, with an empty pair in between. *)
Definition pairs_empty_between : list (bytes * bytes) :=
  [(str_lit "a"%string, str_lit "1"%string);
   ([], []);
   (str_lit "a"%string, str_lit "2"%string)].

(** Names and values of lengths 0, 127, 128 and 16384. *)
Definition pairs_boundary : list (bytes * bytes) :=
  [([], repeat "v"%byte 127);
   (repeat "a"%byte 127, []);
   (repeat "b"%byte 128, repeat "w"%byte 128);
   (repeat "c"%byte (Z.to_nat 16384), repeat "x"%byte (Z.to_nat 16384))].

(** A name bound three times among other names. *)
Definition pairs_rebound : list (bytes * bytes) :=
  [(str_lit "a"%string, str_lit "1"%string);
   (str_lit "b"%string, str_lit "2"%string);
   (str_lit "a"%string, str_lit "3"%string);
   (str_lit "c"%string, []);
   (str_lit "a"%string, str_lit "4"%string);
   (str_lit "d"%string, str_lit "5"%string)].

(** A stream that declares a name of 3 bytes and a value of 1 byte and
    ends after the first byte of the name. *)
Definition truncated_stream : bytes := ["003"%byte; "001"%byte; "a"%byte].

(** A STDOUT record of request 1. *)
Definition record_hello : FcgiRecord :=
  Record_init FCGI_STDOUT 1 (str_lit "hello"%string).

(** A payload one byte longer than a record can carry. *)
Definition payload_65536 : bytes := repeat "000"%byte (Z.to_nat 65536).

End Fcgi.

Module OAuth.

(** ** Strings

    A [str] is a [string]; its characters are the code points below 256. *)

Definition colon : ascii := ":"%char.

(** [s.split(sep)] for a separator of one character. *)
Fixpoint split (sep : ascii) (s : string) : list string :=
  match s with
  | EmptyString => [EmptyString]
  | String c s' =>
      if Ascii.eqb c sep then EmptyString :: split sep s'
      else match split sep s' with
           | h :: t => String c h :: t
           | [] => [String c EmptyString]
           end
  end.

(** Every character of [s] satisfies [p]. *)
Fixpoint all_chars (p : ascii -> bool) (s : string) : bool :=
  match s with
  | EmptyString => true
  | String c s' => p c && all_chars p s'
  end.

(** [':' not in s] *)
Definition no_colon (s : string) : bool :=
  all_chars (fun c => negb (Ascii.eqb c colon)) s.

(** [s[:n]] *)
Fixpoint take (n : nat) (s : string) : string :=
  match n, s with
  | O, _ => EmptyString
  | S _, EmptyString => EmptyString
  | S n', String c s' => String c (take n' s')
  end.

(** [s.encode()]: UTF-8; a code point from 128 to 255 takes two bytes. *)
Definition utf8_char (c : ascii) : list byte :=
  let n := Z.of_N (N_of_ascii c) in
  if n <? 128 then [Fcgi.byte_of_Z n]
  else [Fcgi.byte_of_Z (Z.lor 192 (Z.shiftr n 6));
        Fcgi.byte_of_Z (Z.lor 128 (Z.land n 63))].

Fixpoint str_encode (s : string) : list byte :=
  match s with
  | EmptyString => []
  | String c s' => utf8_char c ++ str_encode s'
  end.

(** [str(n)] for an [int]. *)
Definition str_of_int (n : Z) : string := NilZero.string_of_int (Z.to_int n).

(** White space as [int()] strips it from a [str]: tab, line feed,
    vertical tab, form feed, carriage return and space, and, from 128 on,
    the next-line and the no-break space.  The separators 28 to 31 are not
    stripped. *)
Definition is_space (c : ascii) : bool :=
  let n := N_of_ascii c in
  (((9 <=? n) && (n <=? 13)) || (n =? 32) || (n =? 133) || (n =? 160))%N.

Definition digit_value (c : ascii) : option Z :=
  let n := N_of_ascii c in
  if ((48 <=? n) && (n <=? 57))%N then Some (Z.of_N n - 48) else None.

Definition is_digit (c : ascii) : bool :=
  match digit_value c with Some _ => true | None => false end.

Fixpoint lstrip (s : string) : string :=
  match s with
  | EmptyString => EmptyString
  | String c s' => if is_space c then lstrip s' else s
  end.

Fixpoint rstrip (s : string) : string :=
  match s with
  | EmptyString => EmptyString
  | String c s' =>
      match rstrip s' with
      | EmptyString => if is_space c then EmptyString else String c EmptyString
      | r => String c r
      end
  end.

(** Decimal digits, with single underscores between digits; [after_digit]
    tells that the previous character was a digit. *)
Fixpoint parse_digits (acc : Z) (after_digit : bool) (s : string) : option Z :=
  match s with
  | EmptyString => if after_digit then Some acc else None
  | String c s' =>
      match digit_value c with
      | Some d => parse_digits (10 * acc + d) true s'
      | None =>
          if Ascii.eqb c "_"%char && after_digit
          then match s' with
               | EmptyString => None
               | _ => parse_digits acc false s'
               end
          else None
      end
  end.

(** [int(s)] for a [str]: surrounding white space, an optional sign, then
    the digits; [None] is [ValueError]. *)
Definition int_of_str (s : string) : option Z :=
  match rstrip (lstrip s) with
  | String c s' =>
      if Ascii.eqb c "-"%char then option_map Z.opp (parse_digits 0 false s')
      else if Ascii.eqb c "+"%char then parse_digits 0 false s'
      else parse_digits 0 false (String c s')
  | EmptyString => None
  end.

(** [sys.get_int_max_str_digits()], as the interpreter starts. *)
Definition int_max_str_digits : nat := Z.to_nat 4300.

Fixpoint count_digits (s : string) : nat :=
  match s with
  | EmptyString => O
  | String c s' => if is_digit c then S (count_digits s') else count_digits s'
  end.

(** [int(s)] as the interpreter runs it: a string of more digits than
    [int_max_str_digits] is refused with [ValueError] as well. *)
Definition py_int (s : string) : option Z :=
  if (int_max_str_digits <? count_digits s)%nat then None else int_of_str s.

(** [int(x)] for a [float]: truncation towards zero.  Time is a rational
    number of seconds. *)
Definition int_of_float (x : Q) : Z :=
  if Qle_bool 0 x then Qfloor x else Qceiling x.

(** [string.ascii_letters + string.digits] *)
Definition alphabet : string :=
  "abcdefghijklmnopqrstuvwxyzABCDEFGHIJKLMNOPQRSTUVWXYZ0123456789"%string.

(** [population[i]], the population being [alphabet]. *)
Definition pick (i : nat) : ascii :=
  match String.get (i mod String.length alphabet) alphabet with
  | Some c => c
  | None => "a"%char
  end.

Fixpoint string_of_chars (l : list ascii) : string :=
  match l with
  | [] => EmptyString
  | c :: l' => String c (string_of_chars l')
  end.

(** [''.join(random.choices(population, k=k))]; the generator enters as
    [draw], the index it picks at each of the [k] choices. *)
Definition random_choices (draw : nat -> nat) (k : nat) : string :=
  string_of_chars (map (fun i => pick (draw i)) (seq 0 k)).

Definition hex_digit (n : Z) : ascii :=
  match String.get (Z.to_nat n) "0123456789abcdef"%string with
  | Some c => c
  | None => "0"%char
  end.

(** [digest.hex()]: two lower-case digits for each byte. *)
Fixpoint hex (d : list byte) : string :=
  match d with
  | [] => EmptyString
  | b :: d' =>
      String (hex_digit (Fcgi.byte_to_Z b / 16))
        (String (hex_digit (Fcgi.byte_to_Z b mod 16)) (hex d'))
  end.

(** ** Imported names

    The library names a function can use are those bound by the [import]
    lines of the module; an [import] inside a function binds a local name
    of that function, which no other function sees. *)
Definition module_globals : list string :=
  ["time"; "cgi"; "json"; "urllib2"; "urlencode"; "current"; "redirect";
   "HTTP"]%string.

Inductive exn : Type :=
| ValueError
| NameError (name : string).

(** Reading a library name that the function does not import itself:
    [None] when the module binds it, the exception otherwise. *)
Definition load_global (name : string) : option exn :=
  if existsb (String.eqb name) module_globals then None
  else Some (NameError name).

Section State.

(** [hashlib.sha256(data).digest()], a library function. *)
Variable sha256 : list byte -> list byte.

(** [hashlib.sha256(combined.encode()).hexdigest()[:16]] *)
Definition state_hash_of (combined : string) : string :=
  take 16 (hex (sha256 (str_encode combined))).

(** [generate_state(self)], with [time.time()] read as [time_time]. *)
Definition generate_state (draw : nat -> nat) (time_time : Q) : string :=
  let random_str := random_choices draw 32 in
  let timestamp := str_of_int (int_of_float time_time) in
  let combined := (random_str ++ ":" ++ timestamp)%string in
  let state_hash := state_hash_of combined in
  (random_str ++ ":" ++ timestamp ++ ":" ++ state_hash)%string.

(** The body of the [try] of [validate_state]: the value returned, or the
    exception raised.  [hashlib] is no local name here (the [import] of
    [generate_state] is its own), so it is read from the module. *)
Definition validate_state_try (time_time : Q) (received_state : string)
  : bool + exn :=
  let parts := split colon received_state in
  match parts with
  | [random_str; timestamp; received_hash] =>
      match py_int timestamp with
      | None => inr ValueError
      | Some ts =>
          if int_of_float time_time - ts >? 600 then inl false
          else
            let combined := (random_str ++ ":" ++ timestamp)%string in
            match load_global "hashlib" with
            | Some e => inr e
            | None =>
                let expected_hash := state_hash_of combined in
                inl (String.eqb received_hash expected_hash)
            end
      end
  | _ => inl false
  end.

(** [validate_state(self, received_state)]: [except: return False]. *)
Definition validate_state (time_time : Q) (received_state : string) : bool :=
  match validate_state_try time_time received_state with
  | inl b => b
  | inr _ => false
  end.

(** [s] is [random:timestamp:hash], three parts without a colon. *)
Definition three_parts (s random_str timestamp hash : string) : Prop :=
  s = (random_str ++ ":" ++ timestamp ++ ":" ++ hash)%string /\
  no_colon random_str = true /\
  no_colon timestamp = true /\
  no_colon hash = true.

End State.

(** ** Concrete inputs *)

(** A stand-in for the digest, two bytes for every input byte. *)
Definition digest_example (d : list byte) : list byte :=
  flat_map (fun b => [b; "171"%byte]) d.

(** A generator that picks the letters in turn. *)
Definition draw_example (i : nat) : nat := (7 * i + 3)%nat.

End OAuth.

(** * More of the gateway: pooled connections, the WSGI environment, CGI
    detection *)

Module Gateway.

Import Fcgi.

(** ** Connection: a run of writes *)

(** [for data in datas: conn.write(data)] *)
Definition writes {Sock Addr : Type} (datas : list bytes)
  (c : Connection Sock Addr) : Connection Sock Addr :=
  fold_left (fun c d => write d c) datas c.

(** ** class ConnectionPool

    Every method body runs under [self._lock] from its first to its last
    access to the pool, so a method is one step and any run of the pool is
    a sequence of such steps; the lock itself is not a field here. *)

Section Pool.

Variable C : Type.

Record ConnectionPool : Type := mkPool {
  _pool : list C;
  _maxConnections : Z
}.

(** [ConnectionPool.__init__(self, maxConnections=10)] *)
Definition ConnectionPool_init (maxConnections : Z) : ConnectionPool :=
  {| _pool := []; _maxConnections := maxConnections |}.

Definition ConnectionPool_default : ConnectionPool := ConnectionPool_init 10.

(** [list.pop()]: the list without its last element, and that element;
    [None] for the empty list. *)
Fixpoint pop (l : list C) : option (list C * C) :=
  match l with
  | [] => None
  | x :: l' =>
      match pop l' with
      | None => Some ([], x)
      | Some (r, y) => Some (x :: r, y)
      end
  end.

(** [getConnection(self)]: what is returned, [None] for Python's [None],
    and the pool afterwards. *)
Definition getConnection (p : ConnectionPool) : option C * ConnectionPool :=
  match pop (_pool p) with
  | Some (rest, c) =>
      (Some c, {| _pool := rest; _maxConnections := _maxConnections p |})
  | None => (None, p)
  end.

(** [putConnection(self, conn)] *)
Definition putConnection (conn : C) (p : ConnectionPool) : ConnectionPool :=
  if len (_pool p) <? _maxConnections p
  then {| _pool := _pool p ++ [conn]; _maxConnections := _maxConnections p |}
  else p.

(** The calls a user of the pool can make. *)
Inductive pool_call : Type :=
| Put (conn : C)
| Get.

Definition pool_step (p : ConnectionPool) (call : pool_call) : ConnectionPool :=
  match call with
  | Put conn => putConnection conn p
  | Get => snd (getConnection p)
  end.

Definition pool_run (calls : list pool_call) (p : ConnectionPool) : ConnectionPool :=
  fold_left pool_step calls p.

(** [n] calls of [getConnection], with what each returned. *)
Fixpoint get_many (n : nat) (p : ConnectionPool) : list (option C) * ConnectionPool :=
  match n with
  | O => ([], p)
  | S n' =>
      let (r, p1) := getConnection p in
      let (rs, p2) := get_many n' p1 in
      (r :: rs, p2)
  end.

(** [for conn in conns: pool.putConnection(conn)] *)
Definition put_many (conns : list C) (p : ConnectionPool) : ConnectionPool :=
  fold_left (fun p c => putConnection c p) conns p.

End Pool.

Arguments _pool {C} _.
Arguments _maxConnections {C} _.
Arguments ConnectionPool_init {C} _.
Arguments ConnectionPool_default {C}.
Arguments pop {C} _.
Arguments getConnection {C} _.
Arguments putConnection {C} _ _.
Arguments Put {C} _.
Arguments Get {C}.
Arguments pool_step {C} _ _.
Arguments pool_run {C} _ _.
Arguments get_many {C} _ _.
Arguments put_many {C} _ _.

(** ** The WSGI environment *)

(** The values an environ holds: strings, the version pair, flags and the
    request's streams. *)
Inductive pyval : Type :=
| VStr (s : bytes)
| VTuple (a b : Z)
| VBool (b : bool)
| VStream (f : StringIO).

(** A [dict] from strings to such values, in insertion order. *)
Definition environ_t := list (bytes * pyval).

Fixpoint env_set (k : bytes) (v : pyval) (d : environ_t) : environ_t :=
  match d with
  | [] => [(k, v)]
  | (k', v') :: d' =>
      if bytes_eqb k' k then (k, v) :: d' else (k', v') :: env_set k v d'
  end.

(** [environ.get(k)]: [None] when the key is missing. *)
Fixpoint env_get (k : bytes) (d : environ_t) : option pyval :=
  match d with
  | [] => None
  | (k', v') :: d' => if bytes_eqb k' k then Some v' else env_get k d'
  end.

(** Truth value of what [environ.get] gives: [None], the empty string and
    [False] are false. *)
Definition truthy (v : option pyval) : bool :=
  match v with
  | None => false
  | Some (VStr s) => negb (is_empty s)
  | Some (VTuple _ _) => true
  | Some (VBool b) => b
  | Some (VStream _) => true
  end.

Definition k_wsgi_version : bytes := str_lit "wsgi.version"%string.
Definition k_wsgi_url_scheme : bytes := str_lit "wsgi.url_scheme"%string.
Definition k_wsgi_input : bytes := str_lit "wsgi.input"%string.
Definition k_wsgi_errors : bytes := str_lit "wsgi.errors"%string.
Definition k_wsgi_multithread : bytes := str_lit "wsgi.multithread"%string.
Definition k_wsgi_multiprocess : bytes := str_lit "wsgi.multiprocess"%string.
Definition k_wsgi_run_once : bytes := str_lit "wsgi.run_once"%string.
Definition k_HTTPS : bytes := str_lit "HTTPS"%string.

(** The seven keys that [_buildEnviron] assigns after the parameters. *)
Definition wsgi_keys : list bytes :=
  [k_wsgi_version; k_wsgi_url_scheme; k_wsgi_input; k_wsgi_errors;
   k_wsgi_multithread; k_wsgi_multiprocess; k_wsgi_run_once].

Definition is_wsgi_key (k : bytes) : bool := existsb (bytes_eqb k) wsgi_keys.

(** [for name, value in params.items(): environ[name] = value] *)
Definition add_params (params : dict) (environ : environ_t) : environ_t :=
  fold_left (fun e p => env_set (fst p) (VStr (snd p)) e) (items params) environ.

(** [_buildEnviron(self, req)].  [self._environ] and [self._multithreaded]
    are the server's fields; [req.params], which [Request.__init__] does
    not set, is the dict of parameters attached to the request; the copy of
    [self._environ] is the value itself. *)
Definition _buildEnviron (_environ : environ_t) (_multithreaded : bool)
  (req : Request.t) (params : dict) : environ_t :=
  let environ := _environ in
  let environ := add_params params environ in
  let environ := env_set k_wsgi_version (VTuple 1 0) environ in
  let environ :=
    env_set k_wsgi_url_scheme
      (VStr (if truthy (env_get k_HTTPS environ)
             then str_lit "https"%string else str_lit "http"%string))
      environ in
  let environ := env_set k_wsgi_input (VStream (Request.stdin req)) environ in
  let environ := env_set k_wsgi_errors (VStream (Request.stderr req)) environ in
  let environ := env_set k_wsgi_multithread (VBool _multithreaded) environ in
  let environ := env_set k_wsgi_multiprocess (VBool true) environ in
  let environ := env_set k_wsgi_run_once (VBool false) environ in
  environ.

(** ** CGI detection *)

(** [c.lower()] for one character of a byte string. *)
Definition lower_byte (b : byte) : byte :=
  let n := byte_to_Z b in
  if (65 <=? n) && (n <=? 90) then byte_of_Z (n + 32) else b.

(** [s.lower()] *)
Definition lower (s : bytes) : bytes := map lower_byte s.

(** [d.get(k, default)] *)
Definition dict_get_default (k : bytes) (default : bytes) (d : dict) : bytes :=
  match dict_get k d with
  | Some v => v
  | None => default
  end.

(** [_isCGI()], with [os.environ] as an argument. *)
Definition _isCGI (os_environ : dict) : bool :=
  existsb (bytes_eqb (lower (dict_get_default (str_lit "FCGI_FORCE_CGI"%string)
                               [] os_environ)))
    [str_lit "y"%string; str_lit "yes"%string; str_lit "1"%string].

(** The values of FCGI_FORCE_CGI that force CGI mode. *)
Definition cgi_values : list bytes :=
  map str_lit
    ["y"; "Y"; "1"; "yes"; "yeS"; "yEs"; "yES"; "Yes"; "YeS"; "YEs"; "YES"]%string.

(** ** Streams *)

(** The stream [s] is the stream [f] read further: the same content, the
    position not before. *)
Definition forward (f s : StringIO) : Prop :=
  sio_buf s = sio_buf f /\ (sio_pos f <= sio_pos s)%nat.

(** ** What a peer reads from the records sent *)

(** The contents of the records of one type, in the order sent, put
    together. *)
Definition stream_content (ty : Z) (l : list Sent) : bytes :=
  List.concat (map sent_content (filter (fun s => sent_type s =? ty) l)).

(** The END_REQUEST body [struct.pack('!BBxxxxxx', 0, status)]. *)
Definition end_request_body (status : Z) : bytes :=
  [byte_of_Z 0; byte_of_Z status; x00; x00; x00; x00; x00; x00].

(** ** Concrete inputs *)

(** A pool of three names with room for one more. *)
Definition pool_example : ConnectionPool nat :=
  {| _pool := [1%nat; 2%nat; 3%nat]; _maxConnections := 4 |}.

(** A pool that is full. *)
Definition pool_full_example : ConnectionPool nat :=
  {| _pool := [1%nat; 2%nat]; _maxConnections := 2 |}.

(** A base environ that says HTTPS is off and names the server. *)
Definition environ_base_example : environ_t :=
  [(k_HTTPS, VStr []);
   (str_lit "SERVER_NAME"%string, VStr (str_lit "localhost"%string))].

(** Parameters of a request that came over HTTPS. *)
Definition environ_params_example : dict :=
  [(str_lit "REQUEST_METHOD"%string, str_lit "GET"%string);
   (k_HTTPS, str_lit "on"%string);
   (str_lit "SERVER_NAME"%string, str_lit "example.org"%string);
   (k_wsgi_run_once, str_lit "1"%string)].

End Gateway.

(** * More of the OAuth account: provider errors, retried calls, the
    authorization URL *)

Module OAuthFlow.

Import OAuth.

(** ** Dicts of strings *)

Definition sdict := list (string * string).

(** [d.get(k)] *)
Fixpoint sdict_get (k : string) (d : sdict) : option string :=
  match d with
  | [] => None
  | (k', v) :: d' => if String.eqb k' k then Some v else sdict_get k d'
  end.

(** [d.get(k, default)] *)
Definition sdict_get_default (k default : string) (d : sdict) : string :=
  match sdict_get k d with
  | Some v => v
  | None => default
  end.

(** ** handle_oauth_error *)

(** The exception [HTTP(status, body)]. *)
Record HTTP : Type := mkHTTP {
  http_status : Z;
  http_body : string
}.

Definition error_mapping : sdict :=
  [("invalid_request", "Invalid OAuth request parameters");
   ("unauthorized_client", "Client authentication failed");
   ("access_denied", "User denied authorization");
   ("unsupported_response_type", "Authorization code flow not supported");
   ("invalid_scope", "Requested scope is invalid");
   ("server_error", "Authorization server error");
   ("temporarily_unavailable", "Service temporarily unavailable")]%string.

(** [handle_oauth_error(self, error_response)]: it always ends in [raise];
    the result is the line given to [logging.error] and the exception. *)
Definition handle_oauth_error (error_response : sdict) : string * HTTP :=
  let error_code := sdict_get_default "error" "unknown_error" error_response in
  let error_description :=
    sdict_get_default "error_description" "Unknown error" error_response in
  let user_message := sdict_get_default error_code error_description error_mapping in
  (("OAuth error: " ++ error_code ++ " - " ++ error_description)%string,
   mkHTTP 400 user_message).

(** ** robust_api_call *)

(** What one [urlopen] followed by [read().decode()] does: a body, or an
    exception; [OtherError] is any exception that is neither an
    [HTTPError], a [URLError] nor a [socket.timeout]. *)
Inductive outcome : Type :=
| Success (body : string)
| HTTPError (code : Z)
| URLError
| SocketTimeout
| OtherError.

(** What the caller sees: a returned value, [None] for Python's [None],
    the exception of a failed call, raised again, or an exception of the
    function's own. *)
Inductive api_result : Type :=
| Returned (v : option string)
| Raised (o : outcome)
| RaisedExn (e : exn).

(** What the function does to the outside: calls and sleeps. *)
Inductive event : Type :=
| Urlopen (attempt : nat)
| Sleep (seconds : Z).

(** [e.code in [400, 401, 403]] *)
Definition is_client_error (code : Z) : bool :=
  (code =? 400) || (code =? 401) || (code =? 403).

Definition after (evs : list event) (r : api_result * list event)
  : api_result * list event :=
  (fst r, evs ++ snd r).

(** The [for attempt in range(retries)] loop with [todo] turns left; the
    network enters as [urlopen], the outcome of the call made at each
    attempt.  A loop that runs out falls off the end of the function.

    An exception that is not an [HTTPError] goes on to the clause
    [except (urllib2.URLError, socket.timeout)], whose names are read
    before the exception is compared with them: [urllib2] is bound by the
    module, [socket] is read by [load_global]. *)
Fixpoint api_loop (urlopen : nat -> outcome) (retries : Z) (todo attempt : nat)
  : api_result * list event :=
  match todo with
  | O => (Returned None, [])
  | S todo' =>
      let last := Z.of_nat attempt =? retries - 1 in
      match urlopen attempt with
      | Success body => (Returned (Some body), [Urlopen attempt])
      | HTTPError code =>
          if is_client_error code then (Raised (HTTPError code), [Urlopen attempt])
          else if last then (Raised (HTTPError code), [Urlopen attempt])
          else after [Urlopen attempt] (api_loop urlopen retries todo' (S attempt))
      | (URLError | SocketTimeout | OtherError) as e =>
          match load_global "socket" with
          | Some err => (RaisedExn err, [Urlopen attempt])
          | None =>
              match e with
              | URLError | SocketTimeout =>
                  if last then (Raised e, [Urlopen attempt])
                  else after [Urlopen attempt; Sleep (2 ^ Z.of_nat attempt)]
                         (api_loop urlopen retries todo' (S attempt))
              | _ => (Raised e, [Urlopen attempt])
              end
          end
      end
  end.

(** [robust_api_call(self, url, data, headers, retries)]; [url], [data]
    and [headers] go to every call unchanged and are part of [urlopen]. *)
Definition robust_api_call (urlopen : nat -> outcome) (retries : Z)
  : api_result * list event :=
  api_loop urlopen retries (Z.to_nat retries) 0.

(** The calls among the events, and the seconds slept. *)
Definition calls (evs : list event) : list nat :=
  flat_map (fun e => match e with Urlopen a => [a] | Sleep _ => [] end) evs.

Definition sleeps (evs : list event) : list Z :=
  flat_map (fun e => match e with Urlopen _ => [] | Sleep n => [n] end) evs.

(** The failure after which the loop goes on: an [HTTPError] whose code is
    none of 400, 401 and 403. *)
Definition is_retried_failure (o : outcome) : Prop :=
  exists code : Z, o = HTTPError code /\ is_client_error code = false.

(** An exception that is not an [HTTPError]. *)
Definition is_other_failure (o : outcome) : Prop :=
  o = URLError \/ o = SocketTimeout \/ o = OtherError.

(** ** urlencode *)

(** The characters [quote] never escapes: letters, digits and [_.-~]. *)
Definition is_unreserved (c : ascii) : bool :=
  let n := N_of_ascii c in
  (((97 <=? n) && (n <=? 122)) || ((65 <=? n) && (n <=? 90))
   || ((48 <=? n) && (n <=? 57))
   || (n =? 95) || (n =? 46) || (n =? 45) || (n =? 126))%N.

Definition hex_upper_digit (n : Z) : ascii :=
  match String.get (Z.to_nat n) "0123456789ABCDEF"%string with
  | Some c => c
  | None => "0"%char
  end.

(** One byte of the UTF-8 form as [quote_plus] writes it: itself when
    unreserved, [+] for a space, [%XX] otherwise. *)
Definition quote_plus_byte (b : byte) : string :=
  let c := ascii_of_byte b in
  if is_unreserved c then String c EmptyString
  else if Ascii.eqb c " "%char then "+"%string
  else String "%"%char
         (String (hex_upper_digit (Fcgi.byte_to_Z b / 16))
            (String (hex_upper_digit (Fcgi.byte_to_Z b mod 16)) EmptyString)).

(** [quote_plus(s)] *)
Definition quote_plus (s : string) : string :=
  String.concat EmptyString (map quote_plus_byte (str_encode s)).

(** [urlencode(query)] for a dict of strings. *)
Definition urlencode (query : sdict) : string :=
  String.concat "&"
    (map (fun kv => (quote_plus (fst kv) ++ "=" ++ quote_plus (snd kv))%string) query).

(** What a quoted string is made of. *)
Definition is_quoted_char (c : ascii) : bool :=
  is_unreserved c || Ascii.eqb c "+"%char || Ascii.eqb c "%"%char.

(** ** get_authorization_url *)

(** The configuration properties of [OAuthAccount]. *)
Record OAuthAccount : Type := mkAccount {
  client_id : string;
  client_secret : string;
  auth_url : string;
  token_url : string;
  callback_url : string;
  scope : string;
  state : string
}.

(** [get_authorization_url(self)] *)
Definition get_authorization_url (self : OAuthAccount) : string :=
  let params : sdict :=
    [("client_id"%string, client_id self);
     ("redirect_uri"%string, callback_url self);
     ("scope"%string, scope self);
     ("response_type"%string, "code"%string);
     ("state"%string, state self)] in
  (auth_url self ++ "?" ++ urlencode params)%string.

(** ** Users

    The database is external: its state is any type [Db], a row of
    [auth_user] any type [User]; [select_by_email] is
    the select of the first row with that email, [insert_user] is the
    insert of [user_data] into [db.auth_user] followed by the fetch of the
    new row,
    and [update_user_profile] is the method of that name, which the
    listing calls and does not contain. *)

Inductive user_error : Type :=
| ValueError (msg : string)
| KeyError (key : string).

(** The dict [user_data] that [create_new_user] builds; the subscript
    [user_info['email']] raises [KeyError] when there is no email. *)
Definition user_data_of (user_info : sdict) : user_error + sdict :=
  match sdict_get "email" user_info with
  | None => inl (KeyError "email")
  | Some email =>
      inr [("first_name", sdict_get_default "first_name" "" user_info);
           ("last_name", sdict_get_default "last_name" "" user_info);
           ("email", email);
           ("username", sdict_get_default "username" email user_info);
           ("password", "oauth");
           ("registration_key", "");
           ("registration_id", sdict_get_default "id" "" user_info)]%string
  end.

Section Users.

Variable Db : Type.
Variable User : Type.
Variable select_by_email : Db -> string -> option User.
Variable insert_user : sdict -> Db -> Db * User.
Variable update_user_profile : User -> sdict -> Db -> Db.

(** [create_new_user(self, user_info)] *)
Definition create_new_user (user_info : sdict) (db : Db)
  : (user_error + User) * Db :=
  match user_data_of user_info with
  | inl e => (inl e, db)
  | inr user_data =>
      let (db', user) := insert_user user_data db in (inr user, db')
  end.

(** [register_or_update_user(self, user_info)]; [not email] holds for a
    missing email and for the empty string. *)
Definition register_or_update_user (user_info : sdict) (db : Db)
  : (user_error + User) * Db :=
  match sdict_get "email" user_info with
  | None => (inl (ValueError "Email required for user registration"), db)
  | Some EmptyString =>
      (inl (ValueError "Email required for user registration"), db)
  | Some email =>
      match select_by_email db email with
      | Some existing_user =>
          (inr existing_user, update_user_profile existing_user user_info db)
      | None => create_new_user user_info db
      end
  end.

End Users.

Arguments create_new_user {Db User} _ _ _.
Arguments register_or_update_user {Db User} _ _ _ _ _.

(** ** Shapes of the parts of a state token *)

Definition is_alnum (c : ascii) : bool :=
  let n := N_of_ascii c in
  (((97 <=? n) && (n <=? 122)) || ((65 <=? n) && (n <=? 90))
   || ((48 <=? n) && (n <=? 57)))%N.

Definition is_hex_lower (c : ascii) : bool :=
  let n := N_of_ascii c in
  (((48 <=? n) && (n <=? 57)) || ((97 <=? n) && (n <=? 102)))%N.

(** ** Concrete inputs *)

(** A server that fails twice and then answers. *)
Definition urlopen_third (attempt : nat) : outcome :=
  match attempt with
  | 0%nat => HTTPError 500
  | 1%nat => HTTPError 503
  | _ => Success "ok"
  end.

(** A server that is unavailable, then a network that is down. *)
Definition urlopen_down (attempt : nat) : outcome :=
  match attempt with
  | 0%nat => HTTPError 503
  | _ => URLError
  end.

(** A server that is unavailable, then one that refuses. *)
Definition urlopen_refused (attempt : nat) : outcome :=
  match attempt with
  | 0%nat => HTTPError 503
  | _ => HTTPError 401
  end.

(** A server that stays unavailable. *)
Definition urlopen_unavailable (attempt : nat) : outcome := HTTPError 503.

(** A network that refuses the second call. *)
Definition urlopen_forbidden (attempt : nat) : outcome :=
  match attempt with
  | 0%nat => SocketTimeout
  | _ => HTTPError 403
  end.

(** A profile that tries to set its own password. *)
Definition user_info_example : sdict :=
  [("email", "ada@example.org"); ("password", "hunter2");
   ("registration_key", "pending"); ("first_name", "Ada")]%string.

(** A table of users as a list of their data, found by email. *)
Definition select_example (db : list sdict) (email : string) : option sdict :=
  find (fun u => String.eqb (sdict_get_default "email" "" u) email) db.

Definition insert_example (user_data : sdict) (db : list sdict)
  : list sdict * sdict :=
  (db ++ [user_data], user_data).

Definition update_example (user : sdict) (user_info : sdict) (db : list sdict)
  : list sdict := db.

(** An error response of a provider. *)
Definition error_response_example : sdict :=
  [("error", "access_denied");
   ("error_description", "<b>try again</b>")]%string.

(** A digest of 32 bytes, whatever the input. *)
Definition digest32 (d : list byte) : list byte :=
  repeat "171"%byte 32.

(** An account whose fields hold characters that matter in a query. *)
Definition account_example : OAuthAccount :=
  {| client_id := "id&admin=1";
     client_secret := "secret";
     auth_url := "https://provider.example/auth";
     token_url := "https://provider.example/token";
     callback_url := "https://app.example/cb?x=1";
     scope := "email profile";
     state := "abc:1700000000:0123456789abcdef" |}%string.

End OAuthFlow.

(** * Properties of the FastCGI gateway *)

Module FcgiTheory.

Import Fcgi.

(** ** Records *)

(** C8: a record built by [Record(type, requestId, content)] has
    [version == FCGI_VERSION_1] and [contentLength == len(content)]; its
    other fields are the arguments, and the default content is empty. *)
Theorem Record_init_invariant :
  forall (ty reqId : Z) (c : bytes),
    version (Record_init ty reqId c) = FCGI_VERSION_1 /\
    contentLength (Record_init ty reqId c) = len (content (Record_init ty reqId c)) /\
    content (Record_init ty reqId c) = c /\
    type (Record_init ty reqId c) = ty /\
    requestId (Record_init ty reqId c) = reqId /\
    contentLength (Record_init_default ty reqId) = 0.
Proof.
  intros ty reqId c. unfold Record_init_default, Record_init. simpl.
  repeat split; reflexivity.
Qed.

(** ** The outbound buffer *)

Lemma len_app {A : Type} (a b : list A) : len (a ++ b) = len a + len b.
Proof. unfold len. rewrite length_app. lia. Qed.

Lemma len_nonneg {A : Type} (a : list A) : 0 <= len a.
Proof. unfold len. lia. Qed.

Lemma chunks_size_app (a b : list bytes) :
  chunks_size (a ++ b) = chunks_size a + chunks_size b.
Proof.
  induction a as [|d a IH]; simpl.
  - reflexivity.
  - rewrite IH. lia.
Qed.

Section ConnectionFacts.

Variable Sock : Type.
Variable Addr : Type.
Variable sendall : Sock -> bytes -> Sock * bool.

Lemma init_inv (sock : Sock) (addr : Addr) :
  buffer_inv (Connection_init sock addr).
Proof. reflexivity. Qed.

Lemma write_inv (c : Connection Sock Addr) (data : bytes) :
  buffer_inv c -> buffer_inv (write data c).
Proof.
  unfold buffer_inv. intros H. simpl.
  rewrite chunks_size_app, H. simpl. lia.
Qed.

Lemma flush_inv (c : Connection Sock Addr) :
  buffer_inv c -> buffer_inv (fst (flush sendall c)).
Proof.
  unfold buffer_inv, flush. intros H.
  destruct (_writeBuffer c) as [|d ds] eqn:Hbuf.
  - simpl. rewrite Hbuf. exact H.
  - destruct (sendall (_sock c) (join (d :: ds))) as [sock' ok].
    destruct ok; simpl.
    + reflexivity.
    + exact H.
Qed.

Lemma flush_returns_empty (c : Connection Sock Addr) :
  buffer_inv c ->
  snd (flush sendall c) = true ->
  _writeBuffer (fst (flush sendall c)) = [] /\
  _writeBufferSize (fst (flush sendall c)) = 0.
Proof.
  unfold buffer_inv, flush. intros H.
  destruct (_writeBuffer c) as [|d ds] eqn:Hbuf.
  - simpl. intros _. rewrite Hbuf in *. split; [reflexivity | exact H].
  - destruct (sendall (_sock c) (join (d :: ds))) as [sock' ok].
    destruct ok; simpl; intros Hok.
    + split; reflexivity.
    + discriminate Hok.
Qed.

Lemma reachable_inv (c : Connection Sock Addr) :
  reachable Sock Addr sendall c -> buffer_inv c.
Proof.
  induction 1.
  - apply init_inv.
  - apply write_inv; assumption.
  - apply flush_inv; assumption.
Qed.

End ConnectionFacts.

(** C9: [_writeBufferSize] is the sum of the lengths of the chunks of
    [_writeBuffer] after construction; a write and a flush, whether the
    flush returns or raises, keep it so; and when flush returns, the buffer
    is empty and the size is 0. *)
Theorem write_buffer_size_invariant :
  forall (Sock Addr : Type) (sendall : Sock -> bytes -> Sock * bool)
         (sock : Sock) (addr : Addr) (c : Connection Sock Addr) (data : bytes),
    buffer_inv c ->
    buffer_inv (Connection_init sock addr) /\
    buffer_inv (write data c) /\
    buffer_inv (fst (flush sendall c)) /\
    (snd (flush sendall c) = true ->
     _writeBuffer (fst (flush sendall c)) = [] /\
     _writeBufferSize (fst (flush sendall c)) = 0).
Proof.
  intros Sock Addr sendall sock addr c data Hinv.
  split; [apply init_inv |].
  split; [apply write_inv; exact Hinv |].
  split; [apply flush_inv; exact Hinv |].
  apply flush_returns_empty; exact Hinv.
Qed.

Lemma write_buffer_size_invariant_witness :
  buffer_inv conn_two_writes /\
  buffer_inv (write ["d"%byte] conn_two_writes) /\
  buffer_inv (fst (flush sendall_ok conn_two_writes)) /\
  _writeBuffer (fst (flush sendall_ok conn_two_writes)) = [] /\
  _writeBufferSize (fst (flush sendall_ok conn_two_writes)) = 0 /\
  _sock (fst (flush sendall_ok conn_two_writes)) = ["a"%byte; "b"%byte; "c"%byte].
Proof.
  assert (Hc : buffer_inv conn_two_writes) by reflexivity.
  destruct (write_buffer_size_invariant bytes unit sendall_ok [] tt
              conn_two_writes ["d"%byte] Hc) as (_ & Hw & Hf & He).
  split; [exact Hc |].
  split; [exact Hw |].
  split; [exact Hf |].
  destruct (He eq_refl) as [Hb Hs].
  split; [exact Hb |].
  split; [exact Hs | reflexivity].
Defined.

(** C6, as the code has it: [write] appends the data it is given to the
    outbound buffer as one chunk, unsplit and unchanged whatever its
    length, and adds its length to [_writeBufferSize]. *)
Theorem write_appends_one_chunk :
  forall (Sock Addr : Type) (c : Connection Sock Addr) (data : bytes),
    _writeBuffer (write data c) = _writeBuffer c ++ [data] /\
    _writeBufferSize (write data c) = _writeBufferSize c + len data /\
    List.length (_writeBuffer (write data c)) = S (List.length (_writeBuffer c)).
Proof.
  intros Sock Addr c data. simpl.
  split; [reflexivity |].
  split; [reflexivity |].
  rewrite length_app. simpl. lia.
Qed.

(** C6 fails as stated: a payload of 65536 bytes is not split; the write
    enqueues exactly one chunk, the payload itself, 65536 bytes long. *)
Lemma write_does_not_split :
  len payload_65536 > 65535 /\
  _writeBuffer (write payload_65536 (Connection_init tt tt)) = [payload_65536] /\
  ~ (exists pieces : list bytes,
        _writeBuffer (write payload_65536 (Connection_init tt tt))
        = _writeBuffer (Connection_init tt tt) ++ pieces /\
        (1 < List.length pieces)%nat /\
        Forall (fun p => len p <= 65535) pieces).
Proof.
  assert (Hlen : len payload_65536 = 65536).
  { unfold len, payload_65536. rewrite repeat_length. lia. }
  split; [lia |].
  split; [reflexivity |].
  intros (pieces & Hbuf & Hmany & _).
  simpl in Hbuf. subst pieces. simpl in Hmany. lia.
Qed.

(** ** Response streaming *)

Lemma byte_to_of_Z (z : Z) : 0 <= z < 256 -> byte_to_Z (byte_of_Z z) = z.
Proof.
  intros Hz. unfold byte_to_Z, byte_of_Z.
  rewrite Z.mod_small by lia.
  destruct (Byte.of_N (Z.to_N z)) as [b|] eqn:Hb.
  - apply Byte.to_of_N in Hb. rewrite Hb. lia.
  - apply Byte.of_N_None_iff in Hb. lia.
Qed.

Lemma is_uchar_range (z : Z) : is_uchar z = true -> 0 <= z < 256.
Proof. unfold is_uchar. lia. Qed.

Lemma count_type_app (ty : Z) (a b : list Sent) :
  count_type ty (a ++ b) = (count_type ty a + count_type ty b)%nat.
Proof. unfold count_type. rewrite filter_app, length_app. reflexivity. Qed.

Lemma count_type_framed (ty ty' reqId : Z) (d : bytes) :
  ty' <> ty -> count_type ty (framed ty' reqId d) = 0%nat.
Proof.
  intros Hne. unfold framed, count_type.
  destruct (is_empty d); simpl; [reflexivity |].
  destruct (ty' =? ty) eqn:E; [lia | reflexivity].
Qed.

(** C1: [_finishRequest] sends, in this order, the stdout content as
    STDOUT, a zero-length STDOUT, then only when the stderr content is not
    empty that content as STDERR and a zero-length STDERR, and last exactly
    one END_REQUEST whose body carries application status 0 and protocol
    status [FCGI_REQUEST_COMPLETE]. *)
Theorem finishRequest_record_sequence :
  forall (FCGI_REQUEST_COMPLETE : Z) (req : Request.t) (log : list Sent),
    is_uchar FCGI_REQUEST_COMPLETE = true ->
    exists body : bytes,
      _finishRequest FCGI_REQUEST_COMPLETE req log
      = (Ok tt, log ++ response_sequence req body) /\
      app_status body = 0 /\
      protocol_status body = FCGI_REQUEST_COMPLETE /\
      len body = 8 /\
      count_type FCGI_END_REQUEST (response_sequence req body) = 1%nat.
Proof.
  intros RC req log HRC.
  exists [byte_of_Z 0; byte_of_Z RC; x00; x00; x00; x00; x00; x00].
  split; [| split; [| split; [| split]]].
  - unfold _finishRequest, response_sequence, framed, struct_pack_BBx6,
      bind, ret, _sendRecord.
    rewrite HRC. simpl.
    destruct (is_empty (sio_getvalue (Request.stdout req)));
      destruct (is_empty (sio_getvalue (Request.stderr req)));
      simpl; repeat rewrite <- app_assoc; simpl; reflexivity.
  - reflexivity.
  - unfold protocol_status. simpl. apply byte_to_of_Z, is_uchar_range, HRC.
  - reflexivity.
  - unfold response_sequence.
    repeat rewrite count_type_app.
    rewrite count_type_framed by discriminate.
    destruct (is_empty (sio_getvalue (Request.stderr req))).
    + reflexivity.
    + rewrite count_type_app, count_type_framed by discriminate. reflexivity.
Qed.

Lemma finishRequest_record_sequence_witness :
  is_uchar 0 = true /\
  exists body : bytes,
    _finishRequest 0 req_out_err []
    = (Ok tt, [] ++ response_sequence req_out_err body) /\
    app_status body = 0 /\
    protocol_status body = 0 /\
    len body = 8 /\
    count_type FCGI_END_REQUEST (response_sequence req_out_err body) = 1%nat.
Proof.
  split; [reflexivity |].
  apply (finishRequest_record_sequence 0 req_out_err []). reflexivity.
Defined.

(** ** Application errors *)

Lemma sio_write_at_end (s : bytes) (f : StringIO) :
  sio_at_end f ->
  sio_getvalue (sio_write s f) = sio_getvalue f ++ s /\
  sio_at_end (sio_write s f).
Proof.
  unfold sio_at_end, sio_getvalue, sio_write. intros Hend. simpl.
  rewrite Hend, Nat.sub_diag. simpl. rewrite app_nil_r.
  rewrite firstn_all.
  rewrite skipn_all2 by lia.
  rewrite app_nil_r. split; [reflexivity |].
  rewrite length_app. reflexivity.
Qed.

(** C7, as the code has it: the handler appends the diagnostic message
    to the request's stderr and appends the 500 status response to the
    request's stdout, whether or not response output had been started.
    The buffers are at their end, as every buffer is that was made by
    [StringIO()] and only written to. *)
Theorem handleApplicationError_writes_both :
  forall (req : Request.t) (error_str : bytes),
    sio_at_end (Request.stdout req) ->
    sio_at_end (Request.stderr req) ->
    sio_getvalue (Request.stderr (_handleApplicationError req error_str))
    = sio_getvalue (Request.stderr req) ++ application_error_message error_str /\
    sio_getvalue (Request.stdout (_handleApplicationError req error_str))
    = sio_getvalue (Request.stdout req) ++ response_500.
Proof.
  intros req error_str Hout Herr.
  unfold _handleApplicationError, Request.set_stdout, Request.set_stderr.
  cbn [Request.stdout Request.stderr].
  split.
  - apply (proj1 (sio_write_at_end _ _ Herr)).
  - apply (proj1 (sio_write_at_end _ _ Hout)).
Qed.

Lemma handleApplicationError_writes_both_witness :
  sio_at_end (Request.stdout req_started) /\
  sio_at_end (Request.stderr req_started) /\
  sio_getvalue (Request.stderr (_handleApplicationError req_started (str_lit "boom"%string)))
  = sio_getvalue (Request.stderr req_started)
    ++ application_error_message (str_lit "boom"%string) /\
  sio_getvalue (Request.stdout (_handleApplicationError req_started (str_lit "boom"%string)))
  = sio_getvalue (Request.stdout req_started) ++ response_500.
Proof.
  split; [reflexivity |].
  split; [reflexivity |].
  apply (handleApplicationError_writes_both req_started (str_lit "boom"%string));
    reflexivity.
Defined.

(** C7 fails as stated: on a request whose response has been started the
    handler still writes the 500 status response to stdout. *)
Lemma handleApplicationError_after_output :
  response_started req_started = true /\
  sio_getvalue (Request.stdout (_handleApplicationError req_started (str_lit "boom"%string)))
  = sio_getvalue (Request.stdout req_started) ++ response_500 /\
  ~ (response_started req_started = true ->
     sio_getvalue (Request.stdout (_handleApplicationError req_started (str_lit "boom"%string)))
     = sio_getvalue (Request.stdout req_started)).
Proof.
  split; [reflexivity |].
  split; [reflexivity |].
  intros H. specialize (H eq_refl). vm_compute in H. discriminate H.
Qed.

(** ** Bit fields as arithmetic *)

Lemma testbit_small (b k i : Z) : 0 <= b < 2 ^ k -> k <= i -> Z.testbit b i = false.
Proof.
  intros Hb Hi.
  destruct (Z.eq_dec b 0) as [-> | Hne]; [apply Z.testbit_0_l |].
  apply Z.bits_above_log2; [lia |].
  assert (0 < k).
  { destruct (Z_lt_le_dec 0 k) as [|Hk]; [assumption |].
    destruct (Z.eq_dec k 0) as [-> | ]; [simpl in Hb; lia |].
    rewrite Z.pow_neg_r in Hb by lia. lia. }
  assert (Z.log2 b < k) by (apply Z.log2_lt_pow2; lia). lia.
Qed.

Lemma lor_shiftl_small (a b k : Z) :
  0 <= k -> 0 <= b < 2 ^ k -> Z.lor (Z.shiftl a k) b = a * 2 ^ k + b.
Proof.
  intros Hk Hb.
  assert (Hland : Z.land (Z.shiftl a k) b = 0).
  { apply Z.bits_inj'. intros i Hi.
    rewrite Z.land_spec, Z.bits_0.
    destruct (Z_lt_le_dec i k) as [Hlt | Hge].
    - rewrite Z.shiftl_spec_low by assumption. reflexivity.
    - rewrite (testbit_small b k i) by assumption. apply andb_false_r. }
  rewrite <- Z.lxor_lor by exact Hland.
  rewrite <- Z.add_nocarry_lxor by exact Hland.
  rewrite Z.shiftl_mul_pow2 by exact Hk. reflexivity.
Qed.

Lemma land_255 (n : Z) : Z.land n 255 = n mod 256.
Proof. change 255 with (Z.ones 8). rewrite Z.land_ones by lia. reflexivity. Qed.

Lemma land_127 (n : Z) : Z.land n 127 = n mod 128.
Proof. change 127 with (Z.ones 7). rewrite Z.land_ones by lia. reflexivity. Qed.

Lemma lor_128 (n : Z) : 0 <= n < 128 -> Z.lor n 128 = n + 128.
Proof.
  intros Hn. rewrite Z.lor_comm. change 128 with (Z.shiftl 1 7) at 1.
  rewrite lor_shiftl_small; [| lia | change (2 ^ 7) with 128; lia].
  change (2 ^ 7) with 128. lia.
Qed.

Lemma byte_to_Z_range (b : byte) : 0 <= byte_to_Z b < 256.
Proof.
  unfold byte_to_Z. pose proof (Byte.to_N_bounded b). lia.
Qed.

(** The long form of a length field decodes to the length. *)
Lemma long_length_roundtrip (n : Z) :
  0 <= n < 2 ^ 31 ->
  let b0 := byte_to_Z (byte_of_Z (Z.lor (Z.shiftr n 24) 128)) in
  let b1 := byte_to_Z (byte_of_Z (Z.land (Z.shiftr n 16) 255)) in
  let b2 := byte_to_Z (byte_of_Z (Z.land (Z.shiftr n 8) 255)) in
  let b3 := byte_to_Z (byte_of_Z (Z.land n 255)) in
  128 <= b0 /\
  Z.lor (Z.shiftl (Z.land b0 127) 24)
    (Z.lor (Z.shiftl b1 16) (Z.lor (Z.shiftl b2 8) b3)) = n.
Proof.
  intros Hn. cbv zeta.
  rewrite !land_255, !Z.shiftr_div_pow2 by lia.
  assert (H24 : 0 <= n / 2 ^ 24 < 128).
  { split; [apply Z.div_pos; lia | apply Z.div_lt_upper_bound; lia]. }
  rewrite lor_128 by exact H24.
  rewrite !byte_to_of_Z
    by (try (apply Z.mod_pos_bound; lia); lia).
  split; [lia |].
  rewrite land_127.
  rewrite (lor_shiftl_small _ (n mod 256) 8) by (try apply Z.mod_pos_bound; lia).
  assert (Hm0 : 0 <= n mod 256 < 256) by (apply Z.mod_pos_bound; lia).
  assert (Hm1 : 0 <= (n / 2 ^ 8) mod 256 < 256) by (apply Z.mod_pos_bound; lia).
  assert (Hm2 : 0 <= (n / 2 ^ 16) mod 256 < 256) by (apply Z.mod_pos_bound; lia).
  rewrite (lor_shiftl_small _ _ 16) by lia.
  rewrite (lor_shiftl_small _ _ 24) by lia.
  change (2 ^ 8) with 256 in *. change (2 ^ 16) with 65536 in *.
  change (2 ^ 24) with 16777216 in *. change (2 ^ 31) with 2147483648 in *.
  Z.div_mod_to_equations. lia.
Qed.

(** ** Reading from a stream *)

Lemma skipn_firstn_length {A : Type} (k : nat) (l : list A) :
  skipn (List.length (firstn k l)) l = skipn k l.
Proof.
  rewrite length_firstn.
  destruct (Nat.le_gt_cases k (List.length l)) as [Hle | Hgt].
  - rewrite Nat.min_l by exact Hle. reflexivity.
  - rewrite Nat.min_r by lia. rewrite !skipn_all2 by lia. reflexivity.
Qed.

Lemma sio_read_spec (n : Z) (f : StringIO) :
  0 <= n ->
  fst (sio_read n f) = firstn (Z.to_nat n) (sio_remaining f) /\
  sio_remaining (snd (sio_read n f)) = skipn (Z.to_nat n) (sio_remaining f).
Proof.
  intros Hn. unfold sio_read, sio_remaining.
  replace (n <? 0) with false by lia. simpl.
  split; [reflexivity |].
  rewrite Nat.add_comm, <- skipn_skipn.
  apply skipn_firstn_length.
Qed.

Lemma sio_read_app (x rest : bytes) (f : StringIO) :
  sio_remaining f = x ++ rest ->
  exists f', sio_read (len x) f = (x, f') /\ sio_remaining f' = rest.
Proof.
  intros Hrem.
  destruct (sio_read_spec (len x) f (len_nonneg x)) as [Hfst Hsnd].
  destruct (sio_read (len x) f) as [r f'] eqn:E.
  cbn [fst snd] in Hfst, Hsnd.
  rewrite Hrem in Hfst, Hsnd. unfold len in Hfst, Hsnd.
  rewrite Nat2Z.id in Hfst, Hsnd.
  rewrite firstn_app, Nat.sub_diag, firstn_all, firstn_O, app_nil_r in Hfst.
  rewrite skipn_app, Nat.sub_diag, skipn_all in Hsnd. cbn [skipn app] in Hsnd.
  subst r. exists f'. split; [reflexivity | exact Hsnd].
Qed.

Lemma reads_ret {A : Type} (a : A) (f : StringIO) :
  reads (ret a) f a (sio_remaining f).
Proof. exists f. split; reflexivity. Qed.

Lemma reads_bind {A B : Type} (m : M StringIO A) (k : A -> M StringIO B)
  (f : StringIO) (a : A) (b : B) (r1 r2 : bytes) :
  reads m f a r1 ->
  (forall f', sio_remaining f' = r1 -> reads (k a) f' b r2) ->
  reads (bind m k) f b r2.
Proof.
  intros (f1 & Hm & Hr1) Hk.
  destruct (Hk f1 Hr1) as (f2 & Hk2 & Hr2).
  exists f2. unfold bind. rewrite Hm. split; assumption.
Qed.

Lemma reads_read (x rest : bytes) (f : StringIO) :
  sio_remaining f = x ++ rest -> reads (read (len x)) f x rest.
Proof.
  intros Hrem. destruct (sio_read_app x rest f Hrem) as (f' & Hread & Hrest).
  exists f'. unfold read. rewrite Hread. split; [reflexivity | exact Hrest].
Qed.

Lemma reads_read_eof (n : Z) (f : StringIO) :
  0 <= n -> sio_remaining f = [] -> reads (read n) f [] [].
Proof.
  intros Hn Hrem. destruct (sio_read_spec n f Hn) as [Hfst Hsnd].
  unfold reads, read. destruct (sio_read n f) as [r f'].
  cbn [fst snd] in Hfst, Hsnd.
  rewrite Hrem in Hfst, Hsnd. rewrite firstn_nil in Hfst. rewrite skipn_nil in Hsnd.
  subst r. exists f'. split; [reflexivity | exact Hsnd].
Qed.

(** ** Length fields *)

Lemma read_length_encoded (n : Z) (rest : bytes) (f : StringIO) :
  0 <= n < 2 ^ 31 ->
  sio_remaining f = encode_length n ++ rest ->
  reads read_length f (Some n) rest.
Proof.
  intros Hn Hrem. unfold read_length, encode_length in *.
  destruct (n <? 128) eqn:Hshort.
  - eapply reads_bind.
    + apply (reads_read [byte_of_Z n] rest). exact Hrem.
    + intros f' Hf'. cbv beta iota.
      rewrite byte_to_of_Z by lia. rewrite Hshort.
      rewrite <- Hf'. apply reads_ret.
  - destruct (long_length_roundtrip n Hn) as [Hhigh Hval].
    eapply reads_bind.
    + apply (reads_read [byte_of_Z (Z.lor (Z.shiftr n 24) 128)]
               ([byte_of_Z (Z.land (Z.shiftr n 16) 255);
                 byte_of_Z (Z.land (Z.shiftr n 8) 255);
                 byte_of_Z (Z.land n 255)] ++ rest)).
      exact Hrem.
    + intros f1 Hf1. cbv beta iota.
      replace (byte_to_Z (byte_of_Z (Z.lor (Z.shiftr n 24) 128)) <? 128)
        with false by lia.
      eapply reads_bind.
      * apply (reads_read [byte_of_Z (Z.land (Z.shiftr n 16) 255);
                           byte_of_Z (Z.land (Z.shiftr n 8) 255);
                           byte_of_Z (Z.land n 255)] rest).
        exact Hf1.
      * intros f2 Hf2. cbv beta iota.
        rewrite Hval. rewrite <- Hf2. apply reads_ret.
Qed.

Lemma read_length_eof (f : StringIO) :
  sio_remaining f = [] -> reads read_length f None [].
Proof.
  intros Hrem. unfold read_length.
  eapply reads_bind.
  - apply reads_read_eof; [lia | exact Hrem].
  - intros f' Hf'. cbv beta iota. rewrite <- Hf'. apply reads_ret.
Qed.

Lemma readLengths_encoded (a b : Z) (rest : bytes) (f : StringIO) :
  0 <= a < 2 ^ 31 -> 0 <= b < 2 ^ 31 ->
  sio_remaining f = encode_length a ++ encode_length b ++ rest ->
  reads _readLengths f (a, b) rest.
Proof.
  intros Ha Hb Hrem. unfold _readLengths.
  eapply reads_bind.
  - apply (read_length_encoded a (encode_length b ++ rest)); assumption.
  - intros f1 Hf1. cbv beta iota.
    eapply reads_bind.
    + apply (read_length_encoded b rest); assumption.
    + intros f2 Hf2. cbv beta iota. rewrite <- Hf2. apply reads_ret.
Qed.

Lemma readLengths_eof (f : StringIO) :
  sio_remaining f = [] -> reads _readLengths f (0, 0) [].
Proof.
  intros Hrem. unfold _readLengths.
  eapply reads_bind.
  - apply read_length_eof, Hrem.
  - intros f1 Hf1. cbv beta iota. rewrite <- Hf1. apply reads_ret.
Qed.

(** ** The decoding loop on an encoded list of pairs *)

Lemma is_empty_len {A : Type} (s : list A) : is_empty s = (len s =? 0).
Proof. destruct s; unfold len; simpl; [reflexivity | lia]. Qed.

Lemma decodeParams_loop_encoded (pairs : list (bytes * bytes)) :
  forall (fuel : nat) (d : dict) (f : StringIO),
    encodable pairs = true ->
    no_empty_pair pairs = true ->
    sio_remaining f = encodeNameValues pairs ->
    (List.length pairs < fuel)%nat ->
    exists f',
      decodeParams_loop fuel d f
      = Some (Ok (fold_left (fun d p => dict_set (fst p) (snd p) d) pairs d), f').
Proof.
  induction pairs as [| [name value] ps IH]; intros fuel d f Henc Hne Hrem Hfuel.
  - destruct fuel as [| fuel']; [simpl in Hfuel; lia |].
    destruct (readLengths_eof f Hrem) as (f' & Hrl & _).
    exists f'. simpl. rewrite Hrl. reflexivity.
  - destruct fuel as [| fuel']; [simpl in Hfuel; lia |].
    simpl in Henc, Hne, Hrem, Hfuel.
    apply andb_prop in Henc. destruct Henc as [Hlens Henc].
    apply andb_prop in Hlens. destruct Hlens as [Hln Hlv].
    apply Z.ltb_lt in Hln. apply Z.ltb_lt in Hlv.
    apply andb_prop in Hne. destruct Hne as [Hnz Hne].
    rewrite <- !app_assoc in Hrem.
    destruct (readLengths_encoded (len name) (len value)
                (name ++ value ++ encodeNameValues ps) f) as (f1 & Hrl & Hf1).
    { pose proof (len_nonneg name). lia. }
    { pose proof (len_nonneg value). lia. }
    { exact Hrem. }
    destruct (sio_read_app name (value ++ encodeNameValues ps) f1 Hf1)
      as (f2 & Hrn & Hf2).
    destruct (sio_read_app value (encodeNameValues ps) f2 Hf2)
      as (f3 & Hrv & Hf3).
    destruct (IH fuel' (dict_set name value d) f3 Henc Hne Hf3) as (f' & Hloop).
    { lia. }
    exists f'. cbn [decodeParams_loop]. rewrite Hrl.
    rewrite <- !is_empty_len.
    apply negb_true_iff in Hnz. rewrite Hnz.
    rewrite Hrn, Hrv. exact Hloop.
Qed.

Lemma encodeNameValues_length (pairs : list (bytes * bytes)) :
  (List.length pairs <= List.length (encodeNameValues pairs))%nat.
Proof.
  induction pairs as [| [name value] ps IH]; simpl; [lia |].
  rewrite !length_app.
  assert (forall n, (1 <= List.length (encode_length n))%nat) as Hone.
  { intros n. unfold encode_length. destruct (n <? 128); simpl; lia. }
  pose proof (Hone (len name)). lia.
Qed.

Lemma decoded_encoded (pairs : list (bytes * bytes)) :
  encodable pairs = true ->
  no_empty_pair pairs = true ->
  decoded (StringIO_of (encodeNameValues pairs)) = Some (Ok (dict_of_pairs pairs)).
Proof.
  intros Henc Hne. unfold decoded, _decodeParams.
  destruct (decodeParams_loop_encoded pairs
              (S (List.length (sio_remaining (StringIO_of (encodeNameValues pairs)))))
              [] (StringIO_of (encodeNameValues pairs)) Henc Hne) as (f' & Hloop).
  { reflexivity. }
  { unfold sio_remaining, StringIO_of. simpl.
    pose proof (encodeNameValues_length pairs). lia. }
  rewrite Hloop. reflexivity.
Qed.

(** ** dict *)

Lemma bytes_eqb_eq (a b : bytes) : bytes_eqb a b = true <-> a = b.
Proof.
  unfold bytes_eqb. destruct (list_eq_dec Byte.byte_eq_dec a b); split;
    congruence.
Qed.

Lemma bytes_eqb_refl (a : bytes) : bytes_eqb a a = true.
Proof. apply bytes_eqb_eq. reflexivity. Qed.

Lemma bytes_eqb_neq (a b : bytes) : bytes_eqb a b = false <-> a <> b.
Proof.
  unfold bytes_eqb. destruct (list_eq_dec Byte.byte_eq_dec a b); split;
    congruence.
Qed.

Lemma dict_get_set_same (k v : bytes) (d : dict) :
  dict_get k (dict_set k v d) = Some v.
Proof.
  induction d as [| [k' v'] d IH]; simpl.
  - rewrite bytes_eqb_refl. reflexivity.
  - destruct (bytes_eqb k' k) eqn:E; simpl.
    + rewrite bytes_eqb_refl. reflexivity.
    + rewrite E. exact IH.
Qed.

Lemma dict_get_set_other (k k' v : bytes) (d : dict) :
  k' <> k -> dict_get k (dict_set k' v d) = dict_get k d.
Proof.
  intros Hne. induction d as [| [k0 v0] d IH]; simpl.
  - apply bytes_eqb_neq in Hne. rewrite Hne. reflexivity.
  - destruct (bytes_eqb k0 k') eqn:E; simpl.
    + apply bytes_eqb_eq in E. subst k0.
      apply bytes_eqb_neq in Hne. rewrite Hne. reflexivity.
    + destruct (bytes_eqb k0 k); [reflexivity | exact IH].
Qed.

Lemma dict_get_fold_absent (k : bytes) (ps : list (bytes * bytes)) :
  forall d,
    existsb (fun q => bytes_eqb (fst q) k) ps = false ->
    dict_get k (fold_left (fun d p => dict_set (fst p) (snd p) d) ps d)
    = dict_get k d.
Proof.
  induction ps as [| [k' v'] ps IH]; intros d Habs; simpl.
  - reflexivity.
  - simpl in Habs. apply orb_false_elim in Habs. destruct Habs as [Hk Habs].
    rewrite IH by exact Habs.
    apply dict_get_set_other. apply bytes_eqb_neq. exact Hk.
Qed.

Lemma dict_get_last (before after : list (bytes * bytes)) (k v : bytes) :
  existsb (fun q => bytes_eqb (fst q) k) after = false ->
  dict_get k (dict_of_pairs (before ++ (k, v) :: after)) = Some v.
Proof.
  intros Habs. unfold dict_of_pairs.
  rewrite fold_left_app. simpl.
  rewrite dict_get_fold_absent by exact Habs.
  apply dict_get_set_same.
Qed.

Lemma dict_set_fresh (k v : bytes) (d : dict) :
  existsb (fun q => bytes_eqb (fst q) k) d = false ->
  dict_set k v d = d ++ [(k, v)].
Proof.
  induction d as [| [k' v'] d IH]; simpl; intros Hfresh.
  - reflexivity.
  - apply orb_false_elim in Hfresh. destruct Hfresh as [Hk Hfresh].
    rewrite Hk. rewrite IH by exact Hfresh. reflexivity.
Qed.

Lemma fold_distinct (ps : list (bytes * bytes)) :
  forall d,
    distinct_names (d ++ ps) = true ->
    fold_left (fun d p => dict_set (fst p) (snd p) d) ps d = d ++ ps.
Proof.
  induction ps as [| [k v] ps IH]; intros d Hd; simpl.
  - rewrite app_nil_r. reflexivity.
  - assert (Hfresh : existsb (fun q => bytes_eqb (fst q) k) d = false).
    { clear IH. induction d as [| [k0 v0] d IHd]; simpl; [reflexivity |].
      simpl in Hd. apply andb_prop in Hd. destruct Hd as [Hk0 Hd].
      rewrite (IHd Hd), orb_false_r.
      apply negb_true_iff in Hk0. rewrite existsb_app in Hk0.
      apply orb_false_elim in Hk0. destruct Hk0 as [_ Hk0].
      simpl in Hk0. apply orb_false_elim in Hk0. destruct Hk0 as [Hk0 _].
      apply bytes_eqb_neq in Hk0. apply bytes_eqb_neq. congruence. }
    rewrite dict_set_fresh by exact Hfresh.
    rewrite IH.
    + rewrite <- app_assoc. reflexivity.
    + rewrite <- app_assoc. exact Hd.
Qed.

Lemma dict_of_distinct_pairs (pairs : list (bytes * bytes)) :
  distinct_names pairs = true -> items (dict_of_pairs pairs) = pairs.
Proof.
  intros Hd. unfold items, dict_of_pairs. apply (fold_distinct pairs []). exact Hd.
Qed.

(** ** The loop ends *)

Lemma sio_read_remaining (n : Z) (f : StringIO) :
  sio_remaining (snd (sio_read n f))
  = skipn (List.length (fst (sio_read n f))) (sio_remaining f).
Proof.
  unfold sio_read, sio_remaining. cbn [fst snd sio_buf sio_pos].
  rewrite Nat.add_comm, <- skipn_skipn. reflexivity.
Qed.

Lemma sio_read_remaining_le (n : Z) (f : StringIO) :
  (List.length (sio_remaining (snd (sio_read n f)))
   <= List.length (sio_remaining f))%nat.
Proof. rewrite sio_read_remaining, length_skipn. lia. Qed.

Lemma read_remaining_le (n : Z) (f s : StringIO) (r : result bytes) :
  read n f = (r, s) ->
  (List.length (sio_remaining s) <= List.length (sio_remaining f))%nat.
Proof.
  unfold read. pose proof (sio_read_remaining_le n f) as Hle.
  destruct (sio_read n f) as [x f']. intros E. inversion E. subst.
  exact Hle.
Qed.

Lemma read_one_progress (f s : StringIO) (b0 : byte) (t : bytes) :
  read 1 f = (Ok (b0 :: t), s) ->
  (List.length (sio_remaining s) < List.length (sio_remaining f))%nat.
Proof.
  unfold read. pose proof (sio_read_remaining 1 f) as Hrem.
  pose proof (proj1 (sio_read_spec 1 f ltac:(lia))) as Hfst.
  destruct (sio_read 1 f) as [x f']. intros E. inversion E. subst.
  cbn [fst snd] in Hrem, Hfst. rewrite Hrem.
  destruct (sio_remaining f) as [| c rest].
  - rewrite firstn_nil in Hfst. discriminate Hfst.
  - rewrite length_skipn. simpl. lia.
Qed.

Lemma read_length_progress (f s : StringIO) (r : result (option Z)) :
  read_length f = (r, s) ->
  (List.length (sio_remaining s) <= List.length (sio_remaining f))%nat /\
  (forall n, r = Ok (Some n) ->
     (List.length (sio_remaining s) < List.length (sio_remaining f))%nat).
Proof.
  unfold read_length, bind.
  destruct (read 1 f) as [r1 f1] eqn:E1.
  pose proof (read_remaining_le _ _ _ _ E1) as Hle1.
  destruct r1 as [x | e].
  - destruct x as [| b0 t].
    + unfold ret. intros E. inversion E. subst. split; [exact Hle1 |].
      intros n Hn. discriminate Hn.
    + pose proof (read_one_progress _ _ _ _ E1) as Hlt1.
      destruct (byte_to_Z b0 <? 128).
      * unfold ret. intros E. inversion E. subst. split; [lia |]. intros; lia.
      * destruct (read 3 f1) as [r3 f3] eqn:E3.
        pose proof (read_remaining_le _ _ _ _ E3) as Hle3.
        destruct r3 as [y | e].
        -- destruct y as [| y1 [| y2 [| y3 [| y4 y]]]];
             unfold ret, raise; intros E; inversion E; subst;
             (split; [lia |]); intros; lia.
        -- intros E. inversion E. subst. split; [lia |]. intros; lia.
  - intros E. inversion E. subst. split; [exact Hle1 |].
    intros n Hn. discriminate Hn.
Qed.

Lemma readLengths_progress (f s : StringIO) (a b : Z) :
  _readLengths f = (Ok (a, b), s) ->
  (a = 0 /\ b = 0) \/
  (List.length (sio_remaining s) < List.length (sio_remaining f))%nat.
Proof.
  unfold _readLengths, bind.
  destruct (read_length f) as [r1 f1] eqn:E1.
  destruct (read_length_progress _ _ _ E1) as [Hle1 Hlt1].
  destruct r1 as [[n |] | e].
  - destruct (read_length f1) as [r2 f2] eqn:E2.
    destruct (read_length_progress _ _ _ E2) as [Hle2 _].
    specialize (Hlt1 n eq_refl).
    destruct r2 as [[v |] | e]; unfold ret, raise; intros E; inversion E; subst.
    right. lia.
  - unfold ret. intros E. inversion E. left. split; reflexivity.
  - intros E. discriminate E.
Qed.

Lemma decodeParams_loop_returns (fuel : nat) :
  forall (d : dict) (f : StringIO),
    (List.length (sio_remaining f) < fuel)%nat ->
    exists r, decodeParams_loop fuel d f = Some r.
Proof.
  induction fuel as [| fuel IH]; intros d f Hfuel; [lia |].
  cbn [decodeParams_loop].
  destruct (_readLengths f) as [r s] eqn:E.
  destruct r as [[a b] | e]; [| eexists; reflexivity].
  destruct ((a =? 0) && (b =? 0)) eqn:Hz; [eexists; reflexivity |].
  destruct (readLengths_progress _ _ _ _ E) as [[Ha Hb] | Hlt].
  { subst. discriminate Hz. }
  pose proof (sio_read_remaining_le a s) as H1.
  destruct (sio_read a s) as [name s1]. cbn [snd] in H1.
  pose proof (sio_read_remaining_le b s1) as H2.
  destruct (sio_read b s1) as [value s2]. cbn [snd] in H2.
  apply IH. lia.
Qed.

(** [_decodeParams] returns on every stream: with a dict or with an
    exception of [_readLengths]. *)
Lemma decodeParams_returns (stream : StringIO) :
  exists r, _decodeParams stream = Some r.
Proof. apply decodeParams_loop_returns. lia. Qed.

(** ** Name/value pairs: what the decoder returns *)

(** C2, as the code has it: when no pair has both an empty name and an
    empty value and every length fits the encoding, decoding the encoding
    of a list of pairs returns the dict built by assigning the pairs in
    order, so that a name that occurs again keeps its last value only;
    when the names are pairwise distinct the items of that dict are the
    pairs, in their order. *)
Theorem decodeParams_encodeNameValues :
  forall pairs : list (bytes * bytes),
    encodable pairs = true ->
    no_empty_pair pairs = true ->
    decoded (StringIO_of (encodeNameValues pairs)) = Some (Ok (dict_of_pairs pairs)) /\
    (distinct_names pairs = true -> items (dict_of_pairs pairs) = pairs).
Proof.
  intros pairs Henc Hne. split.
  - apply decoded_encoded; assumption.
  - apply dict_of_distinct_pairs.
Qed.

Lemma decodeParams_encodeNameValues_witness :
  encodable pairs_boundary = true /\
  no_empty_pair pairs_boundary = true /\
  distinct_names pairs_boundary = true /\
  decoded (StringIO_of (encodeNameValues pairs_boundary))
  = Some (Ok (dict_of_pairs pairs_boundary)) /\
  items (dict_of_pairs pairs_boundary) = pairs_boundary.
Proof.
  assert (He : encodable pairs_boundary = true) by (vm_compute; reflexivity).
  assert (Hn : no_empty_pair pairs_boundary = true) by (vm_compute; reflexivity).
  assert (Hd : distinct_names pairs_boundary = true) by (vm_compute; reflexivity).
  destruct (decodeParams_encodeNameValues pairs_boundary He Hn) as [Hdec Hitems].
  split; [exact He |].
  split; [exact Hn |].
  split; [exact Hd |].
  split; [exact Hdec | exact (Hitems Hd)].
Defined.

(** C2 fails as stated: of two pairs with the same name the decoder
    returns the second only, and a pair with an empty name and an empty
    value ends the decoding, so that it and the pairs after it are lost. *)
Lemma decodeParams_roundtrip_fails :
  decoded (StringIO_of (encodeNameValues pairs_dup))
  = Some (Ok [(str_lit "a"%string, str_lit "2"%string)]) /\
  decoded (StringIO_of (encodeNameValues pairs_dup)) <> Some (Ok pairs_dup) /\
  decoded (StringIO_of (encodeNameValues pairs_empty_first)) = Some (Ok []) /\
  decoded (StringIO_of (encodeNameValues pairs_empty_first))
  <> Some (Ok pairs_empty_first).
Proof.
  split; [vm_compute; reflexivity |].
  split; [vm_compute; intros H; discriminate H |].
  split; [vm_compute; reflexivity |].
  vm_compute; intros H; discriminate H.
Qed.

(** C4, as the code has it: when no pair of the stream has both an empty
    name and an empty value, the decoder returns a mapping that binds every
    name to the value of its last occurrence, which for a name that occurs
    once is its only value. *)
Theorem decodeParams_last_write_wins :
  forall (pairs before after : list (bytes * bytes)) (name value : bytes),
    encodable pairs = true ->
    no_empty_pair pairs = true ->
    pairs = before ++ (name, value) :: after ->
    absent name after = true ->
    exists d : dict,
      decoded (StringIO_of (encodeNameValues pairs)) = Some (Ok d) /\
      dict_get name d = Some value.
Proof.
  intros pairs before after name value Henc Hne Hsplit Habs.
  exists (dict_of_pairs pairs). split.
  - apply decoded_encoded; assumption.
  - subst pairs. apply dict_get_last.
    unfold absent in Habs. apply negb_true_iff in Habs. exact Habs.
Qed.

Lemma decodeParams_last_write_wins_witness :
  encodable pairs_rebound = true /\
  no_empty_pair pairs_rebound = true /\
  absent (str_lit "a"%string) [(str_lit "d"%string, str_lit "5"%string)] = true /\
  exists d : dict,
    decoded (StringIO_of (encodeNameValues pairs_rebound)) = Some (Ok d) /\
    dict_get (str_lit "a"%string) d = Some (str_lit "4"%string).
Proof.
  split; [reflexivity |].
  split; [reflexivity |].
  split; [reflexivity |].
  apply (decodeParams_last_write_wins pairs_rebound
           [(str_lit "a"%string, str_lit "1"%string);
            (str_lit "b"%string, str_lit "2"%string);
            (str_lit "a"%string, str_lit "3"%string);
            (str_lit "c"%string, [])]
           [(str_lit "d"%string, str_lit "5"%string)]
           (str_lit "a"%string) (str_lit "4"%string));
    reflexivity.
Defined.

(** C4 fails as stated: a pair with an empty name and an empty value
    before the last occurrence of a name ends the decoding, and the name
    stays bound to an earlier value. *)
Lemma decodeParams_last_write_fails :
  pairs_empty_between
  = [(str_lit "a"%string, str_lit "1"%string); ([], [])]
    ++ (str_lit "a"%string, str_lit "2"%string) :: [] /\
  exists d : dict,
    decoded (StringIO_of (encodeNameValues pairs_empty_between)) = Some (Ok d) /\
    dict_get (str_lit "a"%string) d = Some (str_lit "1"%string) /\
    dict_get (str_lit "a"%string) d <> Some (str_lit "2"%string).
Proof.
  split; [reflexivity |].
  exists [(str_lit "a"%string, str_lit "1"%string)].
  split; [vm_compute; reflexivity |].
  split; [vm_compute; reflexivity |].
  vm_compute. intros H. discriminate H.
Qed.

Lemma sio_read_short (n : Z) (f : StringIO) :
  0 <= n ->
  exists f',
    sio_read n f = (firstn (Z.to_nat n) (sio_remaining f), f') /\
    sio_remaining f' = skipn (Z.to_nat n) (sio_remaining f).
Proof.
  intros Hn. destruct (sio_read_spec n f Hn) as [Hfst Hsnd].
  destruct (sio_read n f) as [r f']. cbn [fst snd] in Hfst, Hsnd.
  subst r. exists f'. split; [reflexivity | exact Hsnd].
Qed.

(** C5, on the code: a stream that ends after the two length fields of a
    pair and before the declared name and value bytes are all there is
    decoded without an error; the name and the value are what was left of
    the stream. *)
Theorem decodeParams_truncated_pair :
  forall (nameLen valueLen : Z) (data : bytes),
    0 <= nameLen < 2 ^ 31 ->
    0 <= valueLen < 2 ^ 31 ->
    len data < nameLen + valueLen ->
    decoded (StringIO_of (encode_length nameLen ++ encode_length valueLen ++ data))
    = Some (Ok [(firstn (Z.to_nat nameLen) data, skipn (Z.to_nat nameLen) data)]).
Proof.
  intros nameLen valueLen data Hn Hv Hshort.
  unfold decoded, _decodeParams.
  set (f0 := StringIO_of (encode_length nameLen ++ encode_length valueLen ++ data)).
  assert (Hrem0 : sio_remaining f0
                  = encode_length nameLen ++ encode_length valueLen ++ data)
    by reflexivity.
  assert (Hfuel : exists fuel, List.length (sio_remaining f0) = S (S fuel)).
  { rewrite Hrem0, !length_app.
    assert (forall n, (1 <= List.length (encode_length n))%nat) as Hone.
    { intros n. unfold encode_length. destruct (n <? 128); simpl; lia. }
    pose proof (Hone nameLen). pose proof (Hone valueLen).
    exists (List.length (encode_length nameLen) + List.length (encode_length valueLen)
            + List.length data - 2)%nat. lia. }
  destruct Hfuel as (fuel & ->).
  destruct (readLengths_encoded nameLen valueLen data f0 Hn Hv Hrem0)
    as (f1 & Hrl & Hf1).
  destruct (sio_read_short nameLen f1 (proj1 Hn)) as (f2 & Hrn & Hf2).
  destruct (sio_read_short valueLen f2 (proj1 Hv)) as (f3 & Hrv & Hf3).
  rewrite Hf1 in Hrn, Hf2. rewrite Hf2 in Hrv, Hf3.
  assert (Hend : sio_remaining f3 = []).
  { rewrite Hf3. apply skipn_all2. rewrite length_skipn. unfold len in Hshort. lia. }
  assert (Hval : firstn (Z.to_nat valueLen) (skipn (Z.to_nat nameLen) data)
                 = skipn (Z.to_nat nameLen) data).
  { apply firstn_all2. rewrite length_skipn. unfold len in Hshort. lia. }
  rewrite Hval in Hrv.
  destruct (readLengths_eof f3 Hend) as (f4 & Hrl4 & _).
  cbn [decodeParams_loop]. rewrite Hrl.
  replace ((nameLen =? 0) && (valueLen =? 0)) with false.
  2:{ symmetry. apply andb_false_iff. pose proof (len_nonneg data). lia. }
  rewrite Hrn, Hrv, Hrl4. reflexivity.
Qed.

Lemma decodeParams_truncated_pair_witness :
  0 <= 3 < 2 ^ 31 /\
  0 <= 1 < 2 ^ 31 /\
  len (str_lit "a"%string) < 3 + 1 /\
  decoded (StringIO_of truncated_stream) = Some (Ok [(str_lit "a"%string, [])]).
Proof.
  assert (H3 : 0 <= 3 < 2 ^ 31) by (split; [discriminate | reflexivity]).
  assert (H1 : 0 <= 1 < 2 ^ 31) by (split; [discriminate | reflexivity]).
  assert (Hs : len (str_lit "a"%string) < 3 + 1) by reflexivity.
  split; [exact H3 |].
  split; [exact H1 |].
  split; [exact Hs |].
  exact (decodeParams_truncated_pair 3 1 (str_lit "a"%string) H3 H1 Hs).
Defined.

(** ** Records on the wire *)

Lemma be16_roundtrip (n : Z) :
  0 <= n < 65536 ->
  un_be16 (byte_of_Z (Z.shiftr n 8)) (byte_of_Z (Z.land n 255)) = n.
Proof.
  intros Hn. unfold un_be16.
  rewrite land_255, Z.shiftr_div_pow2 by lia.
  change (2 ^ 8) with 256.
  assert (H8 : 0 <= n / 256 < 256).
  { split; [apply Z.div_pos; lia | apply Z.div_lt_upper_bound; lia]. }
  assert (Hm : 0 <= n mod 256 < 256) by (apply Z.mod_pos_bound; lia).
  rewrite !byte_to_of_Z by assumption.
  rewrite lor_shiftl_small by (change (2 ^ 8) with 256; lia).
  change (2 ^ 8) with 256.
  Z.div_mod_to_equations. lia.
Qed.

Lemma padding_for_range (n : Z) : 0 <= padding_for n < 8.
Proof. unfold padding_for. apply Z.mod_pos_bound. lia. Qed.

Lemma len_repeat {A : Type} (x : A) (n : Z) : 0 <= n -> len (repeat x (Z.to_nat n)) = n.
Proof. intros Hn. unfold len. rewrite repeat_length. lia. Qed.

Lemma encodeRecord_ok (ty reqId : Z) (c : bytes) :
  len c <= 65535 ->
  encodeRecord ty reqId c
  = Ok ([byte_of_Z FCGI_VERSION_1; byte_of_Z ty;
         byte_of_Z (Z.shiftr reqId 8); byte_of_Z (Z.land reqId 255);
         byte_of_Z (Z.shiftr (len c) 8); byte_of_Z (Z.land (len c) 255);
         byte_of_Z (padding_for (len c)); x00]
        ++ c ++ repeat x00 (Z.to_nat (padding_for (len c)))).
Proof.
  intros Hc. unfold encodeRecord.
  replace (len c <=? 65535) with true by lia. reflexivity.
Qed.

Section RecordFacts.

Variable frameBound : Z.
Hypothesis frameBound_fits : 65536 <= frameBound.

Lemma decode_encoded (ty reqId : Z) (c b rest : bytes) (f : StringIO) :
  0 <= ty < 256 -> 0 <= reqId < 65536 -> len c <= 65535 ->
  encodeRecord ty reqId c = Ok b ->
  sio_remaining f = b ++ rest ->
  reads (decode frameBound) f (Record_init ty reqId c) rest.
Proof.
  intros Hty Hid Hc Henc Hrem.
  rewrite (encodeRecord_ok ty reqId c Hc) in Henc.
  injection Henc as Hb. subst b.
  cbn [app] in Hrem. rewrite <- app_assoc in Hrem.
  pose proof (padding_for_range (len c)) as Hpad.
  pose proof (len_nonneg c) as Hc0.
  unfold decode.
  eapply reads_bind.
  { apply (reads_read
             [byte_of_Z FCGI_VERSION_1; byte_of_Z ty;
              byte_of_Z (Z.shiftr reqId 8); byte_of_Z (Z.land reqId 255);
              byte_of_Z (Z.shiftr (len c) 8); byte_of_Z (Z.land (len c) 255);
              byte_of_Z (padding_for (len c)); x00]
             (c ++ repeat x00 (Z.to_nat (padding_for (len c))) ++ rest)).
    exact Hrem. }
  intros f1 Hf1. cbn [is_empty].
  eapply reads_bind.
  { unfold lift, decodeHeader.
    rewrite !be16_roundtrip by lia.
    rewrite !byte_to_of_Z by (unfold FCGI_VERSION_1; lia).
    rewrite Z.eqb_refl.
    assert (Hfit : len c + padding_for (len c) <= 65536).
    { unfold padding_for. Z.div_mod_to_equations. lia. }
    replace (len c + padding_for (len c) <=? frameBound) with true by lia.
    cbn [andb].
    exists f1. split; [reflexivity | exact Hf1]. }
  intros f2 Hf2. cbv beta iota.
  eapply reads_bind.
  { apply (reads_read c (repeat x00 (Z.to_nat (padding_for (len c))) ++ rest)).
    exact Hf2. }
  intros f3 Hf3.
  eapply reads_bind.
  { rewrite <- (len_repeat x00 (padding_for (len c))) at 1 by lia.
    apply (reads_read (repeat x00 (Z.to_nat (padding_for (len c)))) rest).
    exact Hf3. }
  intros f4 Hf4.
  rewrite Z.eqb_refl, len_repeat, Z.eqb_refl by lia. cbn [andb].
  rewrite <- Hf4. apply reads_ret.
Qed.

Lemma decode_many_encoded (ty reqId : Z) (cs : list bytes) :
  0 <= ty < 256 -> 0 <= reqId < 65536 ->
  Forall (fun c => len c <= 65535) cs ->
  exists bs,
    encode_all ty reqId cs = Ok bs /\
    forall rest f,
      sio_remaining f = bs ++ rest ->
      reads (decode_many frameBound (List.length cs)) f
        (map (Record_init ty reqId) cs) rest.
Proof.
  intros Hty Hid Hcs. induction Hcs as [| c cs Hc Hcs IH].
  - exists []. split; [reflexivity |].
    intros rest f Hrem. simpl in *. rewrite <- Hrem. apply reads_ret.
  - destruct IH as (bs & Hbs & Hdec).
    pose proof (encodeRecord_ok ty reqId c Hc) as Hb.
    eexists. split.
    + cbn [encode_all]. rewrite Hb, Hbs. reflexivity.
    + intros rest f Hrem. rewrite <- app_assoc in Hrem.
      cbn [decode_many List.length map].
      eapply reads_bind.
      { eapply decode_encoded; eassumption. }
      intros f1 Hf1. eapply reads_bind.
      { apply Hdec. exact Hf1. }
      intros f2 Hf2. rewrite <- Hf2. apply reads_ret.
Qed.

End RecordFacts.

(** ** Splitting a payload *)

Lemma split_payload_spec (fuel : nat) :
  forall payload : bytes,
    (List.length payload <= fuel)%nat ->
    List.concat (split_payload fuel payload) = payload /\
    Forall (fun c => len c <= 65535) (split_payload fuel payload) /\
    (1 <= List.length (split_payload fuel payload))%nat /\
    (65535 < len payload -> (1 < List.length (split_payload fuel payload))%nat).
Proof.
  induction fuel as [| fuel IH]; intros payload Hfuel.
  - destruct payload; [| simpl in Hfuel; lia].
    simpl. repeat split; try lia.
    + repeat constructor. unfold len. simpl. lia.
    + unfold len. simpl. lia.
  - cbn [split_payload].
    destruct (len payload <=? 65535) eqn:Hshort.
    + simpl. rewrite app_nil_r. repeat split; try lia.
      repeat constructor. lia.
    + assert (Hrest : (List.length (skipn (Z.to_nat 65535) payload) <= fuel)%nat).
      { rewrite length_skipn. unfold len in Hshort. lia. }
      destruct (IH _ Hrest) as (Hcat & Hall & Hone & _).
      cbn [List.concat List.length]. rewrite Hcat, firstn_skipn.
      repeat split; try lia.
      constructor; [| exact Hall].
      unfold len. rewrite length_firstn. lia.
Qed.

Lemma chunks_spec (payload : bytes) :
  List.concat (chunks payload) = payload /\
  Forall (fun c => len c <= 65535) (chunks payload) /\
  (1 <= List.length (chunks payload))%nat /\
  (65535 < len payload -> (1 < List.length (chunks payload))%nat).
Proof. apply split_payload_spec. lia. Qed.

(** C3: for every valid record, decoding its encoding gives the record
    back, whatever the content length up to 65535; and a payload of any
    length, split into pieces of at most 65535 bytes (more than one piece
    above 65535), is encoded into records that decode, one after the
    other, to the records of the pieces, whose contents concatenated are
    the payload. *)
Theorem record_roundtrip :
  forall (frameBound : Z) (r : FcgiRecord) (payload : bytes),
    65536 <= frameBound ->
    valid_record r ->
    (exists b : bytes,
        encode r = Ok b /\
        fst (decode frameBound (StringIO_of b)) = Ok r) /\
    (exists bs : bytes,
        encodeChunked (type r) (requestId r) payload = Ok bs /\
        fst (decode_many frameBound (List.length (chunks payload)) (StringIO_of bs))
        = Ok (map (Record_init (type r) (requestId r)) (chunks payload)) /\
        List.concat (chunks payload) = payload /\
        Forall (fun c => len c <= 65535) (chunks payload) /\
        (65535 < len payload -> (1 < List.length (chunks payload))%nat)).
Proof.
  intros frameBound r payload Hbound (Hr & Hty & Hid & Hc).
  split.
  - pose proof (encodeRecord_ok (type r) (requestId r) (content r) Hc) as Henc.
    match type of Henc with _ = Ok ?x => set (b := x) in Henc end.
    exists b. split; [exact Henc |].
    destruct (decode_encoded frameBound Hbound (type r) (requestId r) (content r)
                b [] (StringIO_of b) Hty Hid Hc Henc) as (f' & Hdec & _).
    { unfold sio_remaining, StringIO_of. cbn [sio_pos sio_buf skipn].
      rewrite app_nil_r. reflexivity. }
    rewrite Hdec. cbn [fst]. rewrite <- Hr. reflexivity.
  - destruct (chunks_spec payload) as (Hcat & Hall & _ & Hmany).
    destruct (decode_many_encoded frameBound Hbound (type r) (requestId r)
                (chunks payload) Hty Hid Hall) as (bs & Hbs & Hdec).
    exists bs. split; [exact Hbs |].
    destruct (Hdec [] (StringIO_of bs)) as (f' & Hrun & _).
    { unfold sio_remaining, StringIO_of. cbn [sio_pos sio_buf skipn].
      rewrite app_nil_r. reflexivity. }
    rewrite Hrun. cbn [fst].
    split; [reflexivity |].
    split; [exact Hcat |].
    split; [exact Hall | exact Hmany].
Qed.

Lemma record_roundtrip_witness :
  65536 <= 65535 + 255 /\
  valid_record record_hello /\
  (exists b : bytes,
      encode record_hello = Ok b /\
      fst (decode (65535 + 255) (StringIO_of b)) = Ok record_hello) /\
  (exists bs : bytes,
      encodeChunked (type record_hello) (requestId record_hello) payload_65536 = Ok bs /\
      fst (decode_many (65535 + 255) (List.length (chunks payload_65536)) (StringIO_of bs))
      = Ok (map (Record_init (type record_hello) (requestId record_hello))
              (chunks payload_65536)) /\
      List.concat (chunks payload_65536) = payload_65536 /\
      Forall (fun c => len c <= 65535) (chunks payload_65536) /\
      (65535 < len payload_65536 -> (1 < List.length (chunks payload_65536))%nat)).
Proof.
  assert (Hb : 65536 <= 65535 + 255) by lia.
  assert (Hv : valid_record record_hello).
  { unfold valid_record. repeat split; vm_compute; try reflexivity; discriminate. }
  split; [exact Hb |].
  split; [exact Hv |].
  apply (record_roundtrip (65535 + 255) record_hello payload_65536 Hb Hv).
Defined.

End FcgiTheory.

(** * Properties of the OAuth state tokens *)

Module OAuthTheory.

Import OAuth.

(** ** Splitting at colons *)

Lemma split_app (a b : string) :
  no_colon a = true ->
  split colon (a ++ String colon b) = a :: split colon b.
Proof.
  induction a as [| c a IH]; intros Ha.
  - reflexivity.
  - simpl in Ha. apply andb_prop in Ha. destruct Ha as [Hc Ha].
    apply negb_true_iff in Hc.
    simpl. rewrite Hc, (IH Ha). reflexivity.
Qed.

Lemma split_single (a : string) :
  no_colon a = true -> split colon a = [a].
Proof.
  induction a as [| c a IH]; intros Ha.
  - reflexivity.
  - simpl in Ha. apply andb_prop in Ha. destruct Ha as [Hc Ha].
    apply negb_true_iff in Hc.
    simpl. rewrite Hc, (IH Ha). reflexivity.
Qed.

Lemma split_three (r ts h : string) :
  no_colon r = true -> no_colon ts = true -> no_colon h = true ->
  split colon (r ++ ":" ++ ts ++ ":" ++ h)%string = [r; ts; h].
Proof.
  intros Hr Hts Hh.
  change (":" ++ ts ++ ":" ++ h)%string with (String colon (ts ++ String colon h)).
  rewrite (split_app r _ Hr), (split_app ts _ Hts), (split_single h Hh).
  reflexivity.
Qed.

Lemma split_inv (s : string) :
  s = String.concat ":" (split colon s) /\
  Forall (fun p => no_colon p = true) (split colon s) /\
  split colon s <> [].
Proof.
  induction s as [| c s (Hcat & Hall & Hne)].
  - simpl. repeat split; [repeat constructor | discriminate].
  - simpl. destruct (Ascii.eqb c colon) eqn:Hc.
    + apply Ascii.eqb_eq in Hc. subst c.
      split; [| split; [| discriminate]].
      * destruct (split colon s) as [| h t]; [congruence |].
        cbn [String.concat]. simpl. rewrite Hcat at 1. reflexivity.
      * constructor; [reflexivity | exact Hall].
    + destruct (split colon s) as [| h t]; [congruence |].
      pose proof (Forall_inv Hall) as Hh.
      pose proof (Forall_inv_tail Hall) as Ht.
      split; [| split; [| discriminate]].
      * rewrite Hcat at 1. destruct t; reflexivity.
      * constructor; [| exact Ht].
        unfold no_colon. simpl. rewrite Hc. exact Hh.
Qed.

Lemma split_three_inv (s r ts h : string) :
  split colon s = [r; ts; h] -> three_parts s r ts h.
Proof.
  intros Hs. destruct (split_inv s) as (Hcat & Hall & _).
  rewrite Hs in Hcat, Hall.
  pose proof (Forall_inv Hall) as Hr.
  pose proof (Forall_inv (Forall_inv_tail Hall)) as Hts.
  pose proof (Forall_inv (Forall_inv_tail (Forall_inv_tail Hall))) as Hh.
  unfold three_parts. repeat split; assumption.
Qed.

(** ** Decimal digits *)

Lemma digits_of_uint (d : Decimal.uint) :
  all_chars is_digit (NilEmpty.string_of_uint d) = true.
Proof. induction d; simpl; auto. Qed.

Lemma all_chars_impl (p q : ascii -> bool) (s : string) :
  (forall c, p c = true -> q c = true) ->
  all_chars p s = true -> all_chars q s = true.
Proof.
  intros Hpq. induction s as [| c s IH]; simpl; [reflexivity |].
  intros H. apply andb_prop in H. destruct H as [Hc Hs].
  rewrite (Hpq c Hc), (IH Hs). reflexivity.
Qed.

Lemma digit_cases (c : ascii) :
  is_digit c = true ->
  is_space c = false /\ Ascii.eqb c colon = false /\
  Ascii.eqb c "-" = false /\ Ascii.eqb c "+" = false.
Proof.
  unfold is_digit, digit_value, is_space.
  destruct c as [[] [] [] [] [] [] [] []]; vm_compute; intros H;
    try discriminate H; repeat split.
Qed.

Lemma parse_digits_uint (d : Decimal.uint) :
  forall (acc : positive) (b : bool),
    b = true \/ d <> Decimal.Nil ->
    parse_digits (Z.pos acc) b (NilEmpty.string_of_uint d)
    = Some (Z.pos (Pos.of_uint_acc d acc)).
Proof.
  induction d; intros acc b Hb;
    try (cbn [NilEmpty.string_of_uint parse_digits Pos.of_uint_acc];
         match goal with
         | |- context [digit_value ?c] =>
             change (digit_value c) with (Some (Z.of_N (N_of_ascii c) - 48))
         end;
         cbv beta iota;
         rewrite <- (IHd _ true) by (left; reflexivity);
         f_equal; vm_compute N_of_ascii; lia).
  destruct Hb as [-> | Hnil]; [reflexivity | congruence].
Qed.

Lemma parse_digits_uint0 (d : Decimal.uint) :
  forall b : bool,
    b = true \/ d <> Decimal.Nil ->
    parse_digits 0 b (NilEmpty.string_of_uint d) = Some (Z.of_N (Pos.of_uint d)).
Proof.
  induction d; intros b Hb;
    try (cbn [NilEmpty.string_of_uint parse_digits Pos.of_uint];
         match goal with
         | |- context [digit_value ?c] =>
             change (digit_value c) with (Some (Z.of_N (N_of_ascii c) - 48))
         end;
         cbv beta iota;
         first
           [ rewrite <- (IHd true) by (left; reflexivity); f_equal;
             vm_compute N_of_ascii; lia
           | cbn [Z.of_N];
             match goal with
             | |- _ = Some (Z.pos (Pos.of_uint_acc _ ?a)) =>
                 rewrite <- (parse_digits_uint d a true) by (left; reflexivity);
                 f_equal
             end ]).
  destruct Hb as [-> | Hnil]; [reflexivity | congruence].
Qed.

Lemma rstrip_no_space (s : string) :
  all_chars (fun c => negb (is_space c)) s = true -> rstrip s = s.
Proof.
  induction s as [| c s IH]; simpl; [reflexivity |].
  intros H. apply andb_prop in H. destruct H as [Hc Hs].
  rewrite (IH Hs). apply negb_true_iff in Hc. rewrite Hc.
  destruct s; reflexivity.
Qed.

Lemma digits_no_space (s : string) :
  all_chars is_digit s = true ->
  all_chars (fun c => negb (is_space c)) s = true.
Proof.
  apply all_chars_impl. intros c Hc.
  destruct (digit_cases c Hc) as (Hs & _). rewrite Hs. reflexivity.
Qed.

Lemma digits_no_colon (s : string) :
  all_chars is_digit s = true -> no_colon s = true.
Proof.
  apply all_chars_impl. intros c Hc.
  destruct (digit_cases c Hc) as (_ & Hcol & _). rewrite Hcol. reflexivity.
Qed.

Lemma string_of_uint_nonnil (d : Decimal.uint) :
  d <> Decimal.Nil -> NilZero.string_of_uint d = NilEmpty.string_of_uint d.
Proof. destruct d; intros H; [congruence | reflexivity ..]. Qed.

(** [int(str(n)) == n] *)
Lemma int_of_str_of_int (n : Z) : int_of_str (str_of_int n) = Some n.
Proof.
  unfold str_of_int. destruct n as [| p | p].
  - reflexivity.
  - cbn [Z.to_int NilZero.string_of_int].
    pose proof (Unsigned.to_uint_nonnil p) as Hnil.
    rewrite string_of_uint_nonnil by exact Hnil.
    pose proof (digits_of_uint (Pos.to_uint p)) as Hdig.
    pose proof (parse_digits_uint0 (Pos.to_uint p) false (or_intror Hnil)) as Hparse.
    rewrite Unsigned.of_to in Hparse.
    destruct (NilEmpty.string_of_uint (Pos.to_uint p)) as [| c s] eqn:Hs.
    { destruct (Pos.to_uint p); simpl in Hs; congruence. }
    unfold int_of_str.
    assert (Hc : is_digit c = true).
    { simpl in Hdig. apply andb_prop in Hdig. apply Hdig. }
    destruct (digit_cases c Hc) as (Hsp & _ & Hminus & Hplus).
    cbn [lstrip]. rewrite Hsp.
    rewrite rstrip_no_space by (apply digits_no_space; exact Hdig).
    rewrite Hminus, Hplus. exact Hparse.
  - cbn [Z.to_int NilZero.string_of_int].
    pose proof (Unsigned.to_uint_nonnil p) as Hnil.
    rewrite string_of_uint_nonnil by exact Hnil.
    pose proof (digits_of_uint (Pos.to_uint p)) as Hdig.
    pose proof (parse_digits_uint0 (Pos.to_uint p) false (or_intror Hnil)) as Hparse.
    rewrite Unsigned.of_to in Hparse.
    unfold int_of_str. cbn [lstrip].
    change (is_space "-") with false. cbv iota.
    rewrite rstrip_no_space.
    + change (Ascii.eqb "-" "-") with true. cbv iota.
      rewrite Hparse. reflexivity.
    + cbn [all_chars]. change (negb (is_space "-")) with true. cbn [andb].
      apply digits_no_space. exact Hdig.
Qed.

Lemma str_of_int_no_colon (n : Z) : no_colon (str_of_int n) = true.
Proof.
  unfold str_of_int. destruct n as [| p | p].
  - reflexivity.
  - cbn [Z.to_int NilZero.string_of_int].
    rewrite string_of_uint_nonnil by apply Unsigned.to_uint_nonnil.
    apply digits_no_colon, digits_of_uint.
  - cbn [Z.to_int NilZero.string_of_int].
    rewrite string_of_uint_nonnil by apply Unsigned.to_uint_nonnil.
    unfold no_colon. cbn [all_chars].
    change (negb (Ascii.eqb "-" colon)) with true. cbn [andb].
    apply digits_no_colon, digits_of_uint.
Qed.

(** ** The random part and the hash *)

Lemma pick_no_colon (i : nat) : negb (Ascii.eqb (pick i) colon) = true.
Proof.
  unfold pick. generalize (i mod String.length alphabet)%nat. intros j.
  do 62 (destruct j as [| j]; [reflexivity |]).
  reflexivity.
Qed.

Lemma string_of_chars_no_colon (l : list ascii) :
  Forall (fun c => negb (Ascii.eqb c colon) = true) l ->
  no_colon (string_of_chars l) = true.
Proof.
  induction 1 as [| c l Hc Hl IH]; [reflexivity |].
  unfold no_colon in *. simpl. rewrite Hc, IH. reflexivity.
Qed.

Lemma random_choices_no_colon (draw : nat -> nat) (k : nat) :
  no_colon (random_choices draw k) = true.
Proof.
  unfold random_choices. apply string_of_chars_no_colon.
  apply Forall_map, Forall_forall. intros i _. apply pick_no_colon.
Qed.

Lemma hex_no_colon (d : list byte) : no_colon (hex d) = true.
Proof.
  induction d as [| b d IH]; [reflexivity |].
  unfold no_colon in *. cbn [hex all_chars]. rewrite IH.
  destruct b; reflexivity.
Qed.

Lemma take_no_colon (n : nat) (s : string) :
  no_colon s = true -> no_colon (take n s) = true.
Proof.
  unfold no_colon. revert s. induction n as [| n IH]; intros s Hs; [reflexivity |].
  destruct s as [| c s]; [reflexivity |].
  simpl in *. apply andb_prop in Hs. destruct Hs as [Hc Hs].
  rewrite Hc, (IH s Hs). reflexivity.
Qed.

(** ** Truncated time *)

Lemma int_of_float_mono (x y : Q) :
  (x <= y)%Q -> int_of_float x <= int_of_float y.
Proof.
  intros Hxy. unfold int_of_float.
  destruct (Qle_bool 0 x) eqn:Hx; destruct (Qle_bool 0 y) eqn:Hy.
  - apply Qfloor_resp_le. exact Hxy.
  - apply Qle_bool_iff in Hx.
    assert (Hy' : ~ (0 <= y)%Q) by (rewrite <- Qle_bool_iff; congruence).
    exfalso. apply Hy'. lra.
  - apply Qle_bool_iff in Hy.
    assert (Hx' : ~ (0 <= x)%Q) by (rewrite <- Qle_bool_iff; congruence).
    assert (H1 : Qceiling x <= Qceiling 0) by (apply Qceiling_resp_le; lra).
    assert (H2 : Qfloor 0 <= Qfloor y) by (apply Qfloor_resp_le; exact Hy).
    change (Qceiling 0) with 0 in H1. change (Qfloor 0) with 0 in H2. lia.
  - apply Qceiling_resp_le. exact Hxy.
Qed.

Lemma int_of_float_plus (x : Q) (k : Z) :
  0 <= k -> int_of_float (x + inject_Z k) <= int_of_float x + k.
Proof.
  intros Hk. unfold int_of_float.
  assert (HkQ : (inject_Z 0 <= inject_Z k)%Q) by (rewrite <- Zle_Qle; exact Hk).
  change (inject_Z 0) with 0%Q in HkQ.
  pose proof (Qfloor_le (x + inject_Z k)) as Hfl.
  pose proof (Qlt_floor x) as Hlt.
  pose proof (Qle_ceiling x) as Hce.
  pose proof (Qceiling_lt (x + inject_Z k)) as Hcl.
  destruct (Qle_bool 0 x) eqn:Hx; destruct (Qle_bool 0 (x + inject_Z k)) eqn:Hxk.
  - assert (H : (inject_Z (Qfloor (x + inject_Z k)) < inject_Z (Qfloor x + 1 + k))%Q).
    { rewrite inject_Z_plus. lra. }
    rewrite <- Zlt_Qlt in H. lia.
  - apply Qle_bool_iff in Hx.
    assert (Hxk' : ~ (0 <= x + inject_Z k)%Q) by (rewrite <- Qle_bool_iff; congruence).
    exfalso. apply Hxk'. lra.
  - assert (H : (inject_Z (Qfloor (x + inject_Z k)) <= inject_Z (Qceiling x + k))%Q).
    { rewrite inject_Z_plus. lra. }
    rewrite <- Zle_Qle in H. exact H.
  - assert (H : (inject_Z (Qceiling (x + inject_Z k) - 1) < inject_Z (Qceiling x + k))%Q).
    { rewrite inject_Z_plus. lra. }
    rewrite <- Zlt_Qlt in H. lia.
Qed.

Lemma int_of_float_within (t t' : Q) :
  (t' - t <= 600)%Q -> int_of_float t' - int_of_float t <= 600.
Proof.
  intros H.
  assert (H1 : int_of_float t' <= int_of_float (t + inject_Z 600)).
  { apply int_of_float_mono. change (inject_Z 600) with 600%Q. lra. }
  pose proof (int_of_float_plus t 600 ltac:(lia)). lia.
Qed.

(** ** State tokens *)

Section StateFacts.

Variable sha256 : list byte -> list byte.

Lemma state_hash_no_colon (combined : string) :
  no_colon (state_hash_of sha256 combined) = true.
Proof. unfold state_hash_of. apply take_no_colon, hex_no_colon. Qed.

Lemma generate_state_three_parts (draw : nat -> nat) (t : Q) :
  three_parts (generate_state sha256 draw t)
    (random_choices draw 32)
    (str_of_int (int_of_float t))
    (state_hash_of sha256
       (random_choices draw 32 ++ ":" ++ str_of_int (int_of_float t))%string).
Proof.
  unfold three_parts, generate_state. split; [reflexivity |].
  split; [apply random_choices_no_colon |].
  split; [apply str_of_int_no_colon | apply state_hash_no_colon].
Qed.

Lemma load_global_hashlib : load_global "hashlib" = Some (NameError "hashlib").
Proof. reflexivity. Qed.

Lemma validate_three_parts (now : Q) (s r ts h : string) :
  three_parts s r ts h ->
  validate_state_try sha256 now s
  = match py_int ts with
    | None => inr ValueError
    | Some n =>
        if int_of_float now - n >? 600 then inl false
        else inr (NameError "hashlib")
    end.
Proof.
  intros (Hs & Hr & Hts & Hh). unfold validate_state_try.
  rewrite Hs, (split_three r ts h Hr Hts Hh), load_global_hashlib.
  reflexivity.
Qed.

(** The [try] never gets as far as [return received_hash == expected_hash]. *)
Lemma validate_state_try_false (now : Q) (s : string) :
  validate_state_try sha256 now s = inl false \/
  exists e : exn, validate_state_try sha256 now s = inr e.
Proof.
  unfold validate_state_try.
  destruct (split colon s) as [| r [| ts [| h [| x l]]]];
    try (left; reflexivity).
  destruct (py_int ts) as [n |]; [| right; exists ValueError; reflexivity].
  destruct (int_of_float now - n >? 600); [left; reflexivity |].
  rewrite load_global_hashlib. right. exists (NameError "hashlib"). reflexivity.
Qed.

Lemma validate_state_false (now : Q) (s : string) :
  validate_state sha256 now s = false.
Proof.
  unfold validate_state.
  destruct (validate_state_try_false now s) as [H | [e H]]; rewrite H; reflexivity.
Qed.

End StateFacts.

Lemma py_int_of_int (n : Z) :
  (count_digits (str_of_int n) <= int_max_str_digits)%nat ->
  py_int (str_of_int n) = Some n.
Proof.
  intros Hd. unfold py_int.
  replace (int_max_str_digits <? count_digits (str_of_int n))%nat with false
    by (symmetry; apply Nat.ltb_ge; exact Hd).
  apply int_of_str_of_int.
Qed.

(** C10: the [validate_state] of the listing refuses the tokens of
    [generate_state], whenever they are checked.  A token made at time [t]
    and checked at a time [t'] with [t' - t <= 600] is split in three, its
    time stamp is read and found young enough, and then the hash cannot be
    verified: [hashlib] is imported by [generate_state] for itself only, so
    the [try] ends in a NameError, which [except] turns into False. *)
Theorem validate_state_rejects_generated :
  forall (sha256 : list byte -> list byte) (draw : nat -> nat) (t t' : Q),
    validate_state sha256 t' (generate_state sha256 draw t) = false /\
    ((t' - t <= 600)%Q ->
     (count_digits (str_of_int (int_of_float t)) <= int_max_str_digits)%nat ->
     validate_state_try sha256 t' (generate_state sha256 draw t)
     = inr (NameError "hashlib")).
Proof.
  intros sha256 draw t t'. split; [apply validate_state_false |].
  intros Hfresh Hdigits.
  rewrite (validate_three_parts sha256 t' _ _ _ _
             (generate_state_three_parts sha256 draw t)).
  rewrite (py_int_of_int _ Hdigits).
  pose proof (int_of_float_within t t' Hfresh) as Hage.
  replace (int_of_float t' - int_of_float t >? 600) with false by lia.
  reflexivity.
Qed.

Lemma validate_state_rejects_generated_witness :
  ((1700000600 # 1) - (1700000000 # 1) <= 600)%Q /\
  (count_digits (str_of_int (int_of_float (1700000000 # 1)))
   <= int_max_str_digits)%nat /\
  validate_state digest_example (1700000600 # 1)
    (generate_state digest_example draw_example (1700000000 # 1)) = false /\
  validate_state_try digest_example (1700000600 # 1)
    (generate_state digest_example draw_example (1700000000 # 1))
  = inr (NameError "hashlib").
Proof.
  assert (H1 : ((1700000600 # 1) - (1700000000 # 1) <= 600)%Q).
  { vm_compute. discriminate. }
  assert (H2 : (count_digits (str_of_int (int_of_float (1700000000 # 1)))
                <= int_max_str_digits)%nat).
  { apply Nat.leb_le. vm_compute. reflexivity. }
  split; [exact H1 |].
  split; [exact H2 |].
  destruct (validate_state_rejects_generated digest_example draw_example
              (1700000000 # 1) (1700000600 # 1)) as [Hfalse Hwhy].
  split; [exact Hfalse | exact (Hwhy H1 H2)].
Defined.

End OAuthTheory.

(** * Properties of the rest of the gateway *)

Module GatewayTheory.

Import Fcgi Gateway.

(** ** The response of a request *)

Lemma finishRequest_run (RC : Z) (req : Request.t) (log : list Sent) :
  is_uchar RC = true ->
  _finishRequest RC req log
  = (Ok tt, log ++ response_sequence req (end_request_body RC)).
Proof.
  intros HRC.
  unfold _finishRequest, response_sequence, framed, struct_pack_BBx6,
    end_request_body, bind, ret, _sendRecord.
  rewrite HRC. simpl.
  destruct (is_empty (sio_getvalue (Request.stdout req)));
    destruct (is_empty (sio_getvalue (Request.stderr req)));
    simpl; repeat rewrite <- app_assoc; reflexivity.
Qed.

Lemma is_empty_nil {A : Type} (l : list A) : is_empty l = true -> l = [].
Proof. destruct l; [reflexivity | discriminate]. Qed.

(** X1: whatever the request holds, every record [_finishRequest] sends
    carries the request's own id and is a STDOUT, STDERR or END_REQUEST
    record, and a peer that puts the STDOUT contents together gets the
    request's stdout buffer, and from the STDERR contents its stderr
    buffer: nothing is lost, added or reordered. *)
Theorem finishRequest_delivers_buffers :
  forall (FCGI_REQUEST_COMPLETE : Z) (req : Request.t),
    is_uchar FCGI_REQUEST_COMPLETE = true ->
    exists out : list Sent,
      _finishRequest FCGI_REQUEST_COMPLETE req [] = (Ok tt, out) /\
      Forall (fun s => sent_requestId s = Request.requestId req) out /\
      Forall (fun s => sent_type s = FCGI_STDOUT \/ sent_type s = FCGI_STDERR
                       \/ sent_type s = FCGI_END_REQUEST) out /\
      stream_content FCGI_STDOUT out = sio_getvalue (Request.stdout req) /\
      stream_content FCGI_STDERR out = sio_getvalue (Request.stderr req).
Proof.
  intros RC req HRC.
  exists (response_sequence req (end_request_body RC)).
  split; [apply (finishRequest_run RC req [] HRC) |].
  unfold response_sequence, framed, stream_content.
  destruct (is_empty (sio_getvalue (Request.stdout req))) eqn:Hout;
    destruct (is_empty (sio_getvalue (Request.stderr req))) eqn:Herr;
    try (apply is_empty_nil in Hout; rewrite Hout);
    try (apply is_empty_nil in Herr; rewrite Herr);
    cbn [app filter map sent_type sent_content sent_requestId List.concat].
  all: split; [repeat (apply Forall_cons; [reflexivity |]); apply Forall_nil |].
  all: split; [repeat (apply Forall_cons; [auto |]); apply Forall_nil |].
  all: change (FCGI_STDOUT =? FCGI_STDOUT) with true;
    change (FCGI_STDERR =? FCGI_STDOUT) with false;
    change (FCGI_END_REQUEST =? FCGI_STDOUT) with false;
    change (FCGI_STDOUT =? FCGI_STDERR) with false;
    change (FCGI_STDERR =? FCGI_STDERR) with true;
    change (FCGI_END_REQUEST =? FCGI_STDERR) with false;
    cbn [filter map sent_content List.concat app];
    rewrite ?app_nil_r; split; reflexivity.
Qed.

(** X2: a request whose stdout and stderr buffers are empty, as those of
    a request just made, is answered by exactly two records: the
    zero-length STDOUT and END_REQUEST; no STDERR record is sent. *)
Theorem finishRequest_without_output :
  forall (FCGI_REQUEST_COMPLETE : Z) (req : Request.t),
    is_uchar FCGI_REQUEST_COMPLETE = true ->
    sio_getvalue (Request.stdout req) = [] ->
    sio_getvalue (Request.stderr req) = [] ->
    _finishRequest FCGI_REQUEST_COMPLETE req []
    = (Ok tt,
       [mkSent FCGI_STDOUT (Request.requestId req) [];
        mkSent FCGI_END_REQUEST (Request.requestId req)
          (end_request_body FCGI_REQUEST_COMPLETE)]).
Proof.
  intros RC req HRC Hout Herr.
  rewrite (finishRequest_run RC req [] HRC).
  unfold response_sequence, framed. rewrite Hout, Herr. reflexivity.
Qed.

Lemma finishRequest_without_output_witness :
  is_uchar 0 = true /\
  sio_getvalue (Request.stdout (Request.init 7)) = [] /\
  sio_getvalue (Request.stderr (Request.init 7)) = [] /\
  _finishRequest 0 (Request.init 7) []
  = (Ok tt,
     [mkSent FCGI_STDOUT (Request.requestId (Request.init 7)) [];
      mkSent FCGI_END_REQUEST (Request.requestId (Request.init 7))
        (end_request_body 0)]).
Proof.
  split; [reflexivity |].
  split; [reflexivity |].
  split; [reflexivity |].
  apply (finishRequest_without_output 0 (Request.init 7)); reflexivity.
Defined.

Lemma finishRequest_delivers_buffers_witness :
  is_uchar 0 = true /\
  exists out : list Sent,
    _finishRequest 0 req_out_err [] = (Ok tt, out) /\
    Forall (fun s => sent_requestId s = Request.requestId req_out_err) out /\
    Forall (fun s => sent_type s = FCGI_STDOUT \/ sent_type s = FCGI_STDERR
                     \/ sent_type s = FCGI_END_REQUEST) out /\
    stream_content FCGI_STDOUT out = sio_getvalue (Request.stdout req_out_err) /\
    stream_content FCGI_STDERR out = sio_getvalue (Request.stderr req_out_err).
Proof.
  split; [reflexivity |].
  apply (finishRequest_delivers_buffers 0 req_out_err). reflexivity.
Defined.

Lemma app_not_empty {A : Type} (a b : list A) :
  is_empty b = false -> is_empty (a ++ b) = false.
Proof. destruct a; simpl; [auto | reflexivity]. Qed.

(** X3: when the application has failed, the response that
    [_finishRequest] sends after [_handleApplicationError] has five
    records: what was on stdout followed by the 500 status response, the
    STDOUT terminator, what was on stderr followed by the diagnostic, the
    STDERR terminator, and an END_REQUEST that still carries application
    status 0. *)
Theorem finishRequest_after_error :
  forall (FCGI_REQUEST_COMPLETE : Z) (req : Request.t) (error_str : bytes),
    is_uchar FCGI_REQUEST_COMPLETE = true ->
    sio_at_end (Request.stdout req) ->
    sio_at_end (Request.stderr req) ->
    _finishRequest FCGI_REQUEST_COMPLETE (_handleApplicationError req error_str) []
    = (Ok tt,
       [mkSent FCGI_STDOUT (Request.requestId req)
          (sio_getvalue (Request.stdout req) ++ response_500);
        mkSent FCGI_STDOUT (Request.requestId req) [];
        mkSent FCGI_STDERR (Request.requestId req)
          (sio_getvalue (Request.stderr req) ++ application_error_message error_str);
        mkSent FCGI_STDERR (Request.requestId req) [];
        mkSent FCGI_END_REQUEST (Request.requestId req)
          (end_request_body FCGI_REQUEST_COMPLETE)]) /\
    app_status (end_request_body FCGI_REQUEST_COMPLETE) = 0.
Proof.
  intros RC req error_str HRC Hout Herr.
  split; [| reflexivity].
  rewrite (finishRequest_run RC _ [] HRC).
  unfold response_sequence, framed, _handleApplicationError,
    Request.set_stdout, Request.set_stderr.
  cbn [Request.stdout Request.stderr Request.requestId].
  rewrite (proj1 (FcgiTheory.sio_write_at_end _ _ Hout)).
  rewrite (proj1 (FcgiTheory.sio_write_at_end _ _ Herr)).
  rewrite (app_not_empty (sio_getvalue (Request.stdout req)) response_500)
    by reflexivity.
  rewrite (app_not_empty (sio_getvalue (Request.stderr req))
             (application_error_message error_str)).
  - reflexivity.
  - unfold application_error_message. reflexivity.
Qed.

Lemma finishRequest_after_error_witness :
  is_uchar 0 = true /\
  sio_at_end (Request.stdout req_started) /\
  sio_at_end (Request.stderr req_started) /\
  _finishRequest 0 (_handleApplicationError req_started (str_lit "boom"%string)) []
  = (Ok tt,
     [mkSent FCGI_STDOUT (Request.requestId req_started)
        (sio_getvalue (Request.stdout req_started) ++ response_500);
      mkSent FCGI_STDOUT (Request.requestId req_started) [];
      mkSent FCGI_STDERR (Request.requestId req_started)
        (sio_getvalue (Request.stderr req_started)
         ++ application_error_message (str_lit "boom"%string));
      mkSent FCGI_STDERR (Request.requestId req_started) [];
      mkSent FCGI_END_REQUEST (Request.requestId req_started)
        (end_request_body 0)]) /\
  app_status (end_request_body 0) = 0.
Proof.
  split; [reflexivity |].
  split; [reflexivity |].
  split; [reflexivity |].
  apply (finishRequest_after_error 0 req_started (str_lit "boom"%string));
    reflexivity.
Defined.

(** ** Writes and flushes *)

Lemma writes_buffer {Sock Addr : Type} (datas : list bytes) :
  forall c : Connection Sock Addr,
    _writeBuffer (writes datas c) = _writeBuffer c ++ datas /\
    _writeBufferSize (writes datas c) = _writeBufferSize c + chunks_size datas /\
    _sock (writes datas c) = _sock c /\
    _addr (writes datas c) = _addr c.
Proof.
  induction datas as [| d datas IH]; intros c.
  - simpl. rewrite app_nil_r. repeat split; lia.
  - cbn [writes fold_left]. fold (writes datas (write d c)).
    destruct (IH (write d c)) as (Hb & Hs & Hk & Ha).
    rewrite Hb, Hs, Hk, Ha. simpl. rewrite <- app_assoc. repeat split; lia.
Qed.

Lemma chunks_size_join (chunks : list bytes) : chunks_size chunks = len (join chunks).
Proof.
  induction chunks as [| d chunks IH]; [reflexivity |].
  simpl. rewrite IH. unfold join. simpl. rewrite FcgiTheory.len_app. reflexivity.
Qed.

(** X4: after any run of writes, one flush hands [sendall] all the data
    written and not yet sent, joined in the order written, in one call,
    and [_writeBufferSize] was the number of those bytes; when [sendall]
    returns the connection is as new on the socket, when it raises the
    whole buffer is still there. *)
Theorem flush_after_writes :
  forall (Sock Addr : Type) (sendall : Sock -> bytes -> Sock * bool)
         (c : Connection Sock Addr) (datas : list bytes),
    buffer_inv c ->
    datas <> [] ->
    _writeBufferSize (writes datas c) = len (join (_writeBuffer c ++ datas)) /\
    flush sendall (writes datas c)
    = (if snd (sendall (_sock c) (join (_writeBuffer c ++ datas)))
       then Connection_init
              (fst (sendall (_sock c) (join (_writeBuffer c ++ datas)))) (_addr c)
       else {| _sock := fst (sendall (_sock c) (join (_writeBuffer c ++ datas)));
               _addr := _addr c;
               _writeBuffer := _writeBuffer c ++ datas;
               _writeBufferSize := len (join (_writeBuffer c ++ datas)) |},
       snd (sendall (_sock c) (join (_writeBuffer c ++ datas)))).
Proof.
  intros Sock Addr sendall c datas Hinv Hne.
  destruct (writes_buffer datas c) as (Hb & Hs & Hk & Ha).
  assert (Hsize : _writeBufferSize (writes datas c)
                  = len (join (_writeBuffer c ++ datas))).
  { rewrite Hs, Hinv, <- FcgiTheory.chunks_size_app. apply chunks_size_join. }
  split; [exact Hsize |].
  unfold flush. rewrite Hb, Hk, Ha, Hsize.
  destruct (_writeBuffer c ++ datas) as [| x l] eqn:Hbuf.
  - destruct (_writeBuffer c); destruct datas; simpl in Hbuf; congruence.
  - destruct (sendall (_sock c) (join (x :: l))) as [sock' ok].
    destruct ok; reflexivity.
Qed.

Lemma flush_after_writes_witness :
  buffer_inv conn_two_writes /\
  [["d"%byte]; []; ["e"%byte]] <> [] /\
  _writeBufferSize (writes [["d"%byte]; []; ["e"%byte]] conn_two_writes) = 5 /\
  flush sendall_ok (writes [["d"%byte]; []; ["e"%byte]] conn_two_writes)
  = (Connection_init ["a"%byte; "b"%byte; "c"%byte; "d"%byte; "e"%byte] tt, true).
Proof.
  assert (Hinv : buffer_inv conn_two_writes) by reflexivity.
  assert (Hne : [["d"%byte]; []; ["e"%byte]] <> []) by discriminate.
  split; [exact Hinv |].
  split; [exact Hne |].
  exact (flush_after_writes bytes unit sendall_ok conn_two_writes
           [["d"%byte]; []; ["e"%byte]] Hinv Hne).
Defined.

(** X5: a flush with nothing buffered does not call [sendall]: on a new
    connection, and right after a flush that returned, flush returns at
    once and leaves the connection, its socket included, as it was. *)
Theorem flush_twice :
  forall (Sock Addr : Type) (sendall : Sock -> bytes -> Sock * bool)
         (sock : Sock) (addr : Addr) (c : Connection Sock Addr),
    snd (flush sendall c) = true ->
    flush sendall (Connection_init sock addr) = (Connection_init sock addr, true) /\
    flush sendall (fst (flush sendall c)) = (fst (flush sendall c), true).
Proof.
  intros Sock Addr sendall sock addr c Hok.
  split; [reflexivity |].
  unfold flush in *.
  destruct (_writeBuffer c) as [| x l] eqn:Hbuf.
  - simpl. rewrite Hbuf. reflexivity.
  - destruct (sendall (_sock c) (join (x :: l))) as [sock' ok].
    destruct ok; simpl in *; [reflexivity | discriminate Hok].
Qed.

Lemma flush_twice_witness :
  snd (flush sendall_ok conn_two_writes) = true /\
  flush sendall_ok (Connection_init ([] : bytes) tt) = (Connection_init [] tt, true) /\
  flush sendall_ok (fst (flush sendall_ok conn_two_writes))
  = (fst (flush sendall_ok conn_two_writes), true).
Proof.
  split; [reflexivity |].
  apply (flush_twice bytes unit sendall_ok [] tt conn_two_writes). reflexivity.
Defined.

(** X6: a flush in which [sendall] raises loses nothing: the buffer and
    its size are as before, only the socket has moved on, so the next
    flush sends all of it again. *)
Theorem flush_failure_keeps_buffer :
  forall (Sock Addr : Type) (sendall : Sock -> bytes -> Sock * bool)
         (c : Connection Sock Addr),
    snd (flush sendall c) = false ->
    fst (flush sendall c)
    = {| _sock := fst (sendall (_sock c) (join (_writeBuffer c)));
         _addr := _addr c;
         _writeBuffer := _writeBuffer c;
         _writeBufferSize := _writeBufferSize c |} /\
    _writeBuffer c <> [].
Proof.
  intros Sock Addr sendall c Hfail.
  unfold flush in *.
  destruct (_writeBuffer c) as [| x l] eqn:Hbuf.
  - simpl in Hfail. discriminate Hfail.
  - destruct (sendall (_sock c) (join (x :: l))) as [sock' ok].
    destruct ok; simpl in *; [discriminate Hfail |].
    split; [reflexivity | discriminate].
Qed.

Lemma flush_failure_keeps_buffer_witness :
  snd (flush sendall_broken conn_two_writes) = false /\
  fst (flush sendall_broken conn_two_writes)
  = {| _sock := fst (sendall_broken (_sock conn_two_writes)
                       (join (_writeBuffer conn_two_writes)));
       _addr := _addr conn_two_writes;
       _writeBuffer := _writeBuffer conn_two_writes;
       _writeBufferSize := _writeBufferSize conn_two_writes |} /\
  _writeBuffer conn_two_writes <> [].
Proof.
  split; [reflexivity |].
  apply (flush_failure_keeps_buffer bytes unit sendall_broken conn_two_writes).
  reflexivity.
Defined.

(** ** The pool of connections *)

Lemma pop_snoc {C : Type} (l : list C) (x : C) : pop (l ++ [x]) = Some (l, x).
Proof.
  induction l as [| y l IH]; [reflexivity |].
  simpl. rewrite IH. reflexivity.
Qed.

Lemma pop_inv {C : Type} (l r : list C) (x : C) :
  pop l = Some (r, x) -> l = r ++ [x].
Proof.
  revert r x. induction l as [| y l IH]; intros r x H; [discriminate |].
  simpl in H. destruct (pop l) as [[r' x'] |] eqn:Hp.
  - inversion H; subst. rewrite (IH r' x eq_refl). reflexivity.
  - inversion H; subst. destruct l as [| z l]; [reflexivity |].
    simpl in Hp. destruct (pop l) as [[? ?] |]; discriminate.
Qed.

Lemma pool_step_bound {C : Type} (p : ConnectionPool C) (call : pool_call C) :
  len (_pool p) <= Z.max 0 (_maxConnections p) ->
  len (_pool (pool_step p call)) <= Z.max 0 (_maxConnections (pool_step p call)) /\
  _maxConnections (pool_step p call) = _maxConnections p.
Proof.
  intros Hinv. destruct call as [conn |]; cbn [pool_step].
  - unfold putConnection.
    destruct (len (_pool p) <? _maxConnections p) eqn:Hroom; cbn [_pool _maxConnections].
    + rewrite FcgiTheory.len_app. unfold len at 2. simpl. split; lia.
    + split; [exact Hinv | reflexivity].
  - unfold getConnection. destruct (pop (_pool p)) as [[rest c] |] eqn:Hpop;
      cbn [snd _pool _maxConnections].
    + apply pop_inv in Hpop. rewrite Hpop, FcgiTheory.len_app in Hinv.
      pose proof (FcgiTheory.len_nonneg [c]). split; lia.
    + split; [exact Hinv | reflexivity].
Qed.

(** X7: whatever calls are made on a pool, it never holds more than
    [maxConnections] connections, and none at all when [maxConnections]
    is zero or negative; [maxConnections] itself never changes. *)
Theorem pool_never_exceeds_max :
  forall (C : Type) (calls : list (pool_call C)) (maxConnections : Z),
    len (_pool (pool_run calls (ConnectionPool_init maxConnections)))
    <= Z.max 0 maxConnections /\
    _maxConnections (pool_run calls (ConnectionPool_init maxConnections))
    = maxConnections.
Proof.
  intros C calls maxConnections.
  assert (H : forall p : ConnectionPool C,
             len (_pool p) <= Z.max 0 (_maxConnections p) ->
             len (_pool (pool_run calls p)) <= Z.max 0 (_maxConnections p) /\
             _maxConnections (pool_run calls p) = _maxConnections p).
  { induction calls as [| call calls IH]; intros p Hinv.
    - split; [exact Hinv | reflexivity].
    - cbn [pool_run fold_left]. fold (pool_run calls (pool_step p call)).
      destruct (pool_step_bound p call Hinv) as [Hb Hm].
      destruct (IH _ Hb) as [Hb' Hm']. rewrite Hm in Hb', Hm'.
      split; assumption. }
  apply (H (ConnectionPool_init maxConnections)).
  unfold len. simpl. lia.
Qed.

Lemma put_many_cons {C : Type} (x : C) (l : list C) (p : ConnectionPool C) :
  put_many (x :: l) p = put_many l (putConnection x p).
Proof. reflexivity. Qed.

Lemma putConnection_room {C : Type} (x : C) (pl : list C) (m : Z) :
  len pl < m ->
  putConnection x {| _pool := pl; _maxConnections := m |}
  = {| _pool := pl ++ [x]; _maxConnections := m |}.
Proof.
  intros H. unfold putConnection. cbn [_pool _maxConnections].
  replace (len pl <? m) with true by lia. reflexivity.
Qed.

Lemma putConnection_full {C : Type} (x : C) (p : ConnectionPool C) :
  _maxConnections p <= len (_pool p) -> putConnection x p = p.
Proof.
  intros H. unfold putConnection.
  replace (len (_pool p) <? _maxConnections p) with false by lia. reflexivity.
Qed.

Lemma len_cons {A : Type} (x : A) (l : list A) : len (x :: l) = 1 + len l.
Proof. unfold len. cbn [List.length]. lia. Qed.

Lemma put_many_room {C : Type} (l : list C) :
  forall (pl : list C) (m : Z),
    len pl + len l <= m ->
    put_many l {| _pool := pl; _maxConnections := m |}
    = {| _pool := pl ++ l; _maxConnections := m |}.
Proof.
  induction l as [| x l IH]; intros pl m Hroom.
  - simpl. rewrite app_nil_r. reflexivity.
  - rewrite len_cons in Hroom. pose proof (FcgiTheory.len_nonneg l) as Hn.
    rewrite put_many_cons, putConnection_room by lia.
    rewrite IH.
    + rewrite <- app_assoc. reflexivity.
    + rewrite FcgiTheory.len_app, len_cons. change (len (@nil C)) with 0. lia.
Qed.

Lemma get_many_snoc {C : Type} (l : list C) :
  forall (pl : list C) (m : Z),
    get_many (List.length l) {| _pool := pl ++ l; _maxConnections := m |}
    = (map Some (rev l), {| _pool := pl; _maxConnections := m |}).
Proof.
  induction l as [| x l IH] using rev_ind; intros pl m.
  - simpl. rewrite app_nil_r. reflexivity.
  - rewrite length_app, Nat.add_comm. cbn [List.length Nat.add get_many].
    unfold getConnection at 1. cbn [_pool _maxConnections].
    rewrite app_assoc, pop_snoc, IH, rev_app_distr. reflexivity.
Qed.

(** X8: connections put into a pool that has room for all of them come
    back from as many calls of [getConnection] last in, first out, and the
    pool is then as it was before. *)
Theorem pool_put_get_lifo :
  forall (C : Type) (conns : list C) (p : ConnectionPool C),
    len (_pool p) + len conns <= _maxConnections p ->
    get_many (List.length conns) (put_many conns p) = (map Some (rev conns), p).
Proof.
  intros C conns [pl m] Hroom. cbn [_pool _maxConnections] in Hroom.
  rewrite (put_many_room conns pl m Hroom).
  apply get_many_snoc.
Qed.

Lemma pool_put_get_lifo_witness :
  len (_pool pool_example) + len [8%nat] <= _maxConnections pool_example /\
  get_many 1 (put_many [8%nat] pool_example) = ([Some 8%nat], pool_example).
Proof.
  assert (H : len (_pool pool_example) + len [8%nat] <= _maxConnections pool_example).
  { vm_compute. discriminate. }
  split; [exact H |].
  exact (pool_put_get_lifo nat [8%nat] pool_example H).
Defined.

Lemma put_many_general {C : Type} (l : list C) :
  forall (pl : list C) (m : Z),
    put_many l {| _pool := pl; _maxConnections := m |}
    = {| _pool := pl ++ firstn (Z.to_nat (m - len pl)) l; _maxConnections := m |}.
Proof.
  induction l as [| x l IH]; intros pl m.
  - rewrite firstn_nil, app_nil_r. reflexivity.
  - rewrite put_many_cons.
    destruct (Z_lt_le_dec (len pl) m) as [Hroom | Hfull].
    + rewrite putConnection_room by exact Hroom.
      rewrite IH, FcgiTheory.len_app, len_cons. change (len (@nil C)) with 0.
      replace (Z.to_nat (m - len pl)) with (S (Z.to_nat (m - (len pl + (1 + 0)))))
        by lia.
      cbn [firstn]. rewrite <- app_assoc. reflexivity.
    + rewrite putConnection_full by exact Hfull.
      rewrite IH. replace (Z.to_nat (m - len pl)) with 0%nat by lia.
      reflexivity.
Qed.

(** X9: [putConnection] keeps a connection only while the pool has room:
    of a run of connections put one after the other the pool takes as many
    as fit, the first ones, and drops the rest without a sign; a full pool
    is left as it is. *)
Theorem pool_put_fills_to_max :
  forall (C : Type) (conns : list C) (p : ConnectionPool C),
    put_many conns p
    = {| _pool := _pool p ++ firstn (Z.to_nat (_maxConnections p - len (_pool p))) conns;
         _maxConnections := _maxConnections p |} /\
    (_maxConnections p <= len (_pool p) -> put_many conns p = p).
Proof.
  intros C conns [pl m]. cbn [_pool _maxConnections].
  split; [apply put_many_general |].
  intros Hfull. rewrite put_many_general.
  replace (Z.to_nat (m - len pl)) with 0%nat by lia.
  rewrite firstn_O, app_nil_r. reflexivity.
Qed.

Lemma pool_put_fills_to_max_witness :
  _maxConnections pool_full_example <= len (_pool pool_full_example) /\
  put_many [8%nat; 9%nat] pool_example
  = {| _pool := [1%nat; 2%nat; 3%nat; 8%nat]; _maxConnections := 4 |} /\
  put_many [8%nat; 9%nat] pool_full_example = pool_full_example.
Proof.
  assert (H : _maxConnections pool_full_example <= len (_pool pool_full_example)).
  { vm_compute. discriminate. }
  split; [exact H |].
  split.
  - exact (proj1 (pool_put_fills_to_max nat [8%nat; 9%nat] pool_example)).
  - exact (proj2 (pool_put_fills_to_max nat [8%nat; 9%nat] pool_full_example) H).
Defined.

(** ** The WSGI environment *)

Lemma env_get_set_same (k : bytes) (v : pyval) (e : environ_t) :
  env_get k (env_set k v e) = Some v.
Proof.
  induction e as [| [k' v'] e IH]; simpl.
  - rewrite FcgiTheory.bytes_eqb_refl. reflexivity.
  - destruct (bytes_eqb k' k) eqn:E; simpl.
    + rewrite FcgiTheory.bytes_eqb_refl. reflexivity.
    + rewrite E. exact IH.
Qed.

Lemma env_get_set_other (k k' : bytes) (v : pyval) (e : environ_t) :
  bytes_eqb k' k = false -> env_get k (env_set k' v e) = env_get k e.
Proof.
  intros Hne. induction e as [| [k0 v0] e IH]; simpl.
  - rewrite Hne. reflexivity.
  - destruct (bytes_eqb k0 k') eqn:E; simpl.
    + apply FcgiTheory.bytes_eqb_eq in E. subst k0. rewrite Hne. reflexivity.
    + destruct (bytes_eqb k0 k); [reflexivity | exact IH].
Qed.

Lemma dict_get_app (k : bytes) (a b : dict) :
  dict_get k (a ++ b)
  = match dict_get k a with Some v => Some v | None => dict_get k b end.
Proof.
  induction a as [| [k' v'] a IH]; simpl; [reflexivity |].
  destruct (bytes_eqb k' k); [reflexivity | exact IH].
Qed.

Lemma dict_get_absent (k : bytes) (l : dict) :
  existsb (fun q => bytes_eqb (fst q) k) l = false -> dict_get k l = None.
Proof.
  induction l as [| [k' v'] l IH]; simpl; [reflexivity |].
  intros H. apply orb_false_elim in H. destruct H as [Hk Hl].
  rewrite Hk. apply IH, Hl.
Qed.

Lemma existsb_rev {A : Type} (f : A -> bool) (l : list A) :
  existsb f (rev l) = existsb f l.
Proof.
  induction l as [| x l IH]; [reflexivity |].
  simpl. rewrite existsb_app, IH. simpl. rewrite orb_false_r. apply orb_comm.
Qed.

(** In a list of items with distinct keys it does not matter from which
    end a key is looked up. *)
Lemma dict_get_rev (k : bytes) (l : dict) :
  distinct_names l = true -> dict_get k (rev l) = dict_get k l.
Proof.
  induction l as [| [k' v'] l IH]; [reflexivity |].
  intros Hd. cbn [distinct_names fst] in Hd.
  apply andb_prop in Hd. destruct Hd as [Hfresh Hd].
  apply negb_true_iff in Hfresh.
  cbn [rev]. rewrite dict_get_app. cbn [dict_get].
  destruct (bytes_eqb k' k) eqn:E.
  - apply FcgiTheory.bytes_eqb_eq in E. subst k'.
    rewrite dict_get_absent; [reflexivity |].
    rewrite existsb_rev. exact Hfresh.
  - rewrite (IH Hd). destruct (dict_get k l); reflexivity.
Qed.

Lemma add_params_snoc (l : dict) (p : bytes * bytes) (e : environ_t) :
  add_params (l ++ [p]) e = env_set (fst p) (VStr (snd p)) (add_params l e).
Proof. unfold add_params, items. rewrite fold_left_app. reflexivity. Qed.

Lemma env_get_add_params_rev (k : bytes) (l : dict) (e : environ_t) :
  env_get k (add_params (rev l) e)
  = match dict_get k l with Some v => Some (VStr v) | None => env_get k e end.
Proof.
  induction l as [| [k' v'] l IH]; [reflexivity |].
  cbn [rev]. rewrite add_params_snoc. cbn [fst snd dict_get].
  destruct (bytes_eqb k' k) eqn:E.
  - apply FcgiTheory.bytes_eqb_eq in E. subst k'. apply env_get_set_same.
  - rewrite env_get_set_other by exact E. exact IH.
Qed.

Lemma env_get_add_params (k : bytes) (params : dict) (e : environ_t) :
  distinct_names params = true ->
  env_get k (add_params params e)
  = match dict_get k params with Some v => Some (VStr v) | None => env_get k e end.
Proof.
  intros Hd. rewrite <- (rev_involutive params) at 1.
  rewrite env_get_add_params_rev, (dict_get_rev k params Hd). reflexivity.
Qed.

Ltac skip_sets :=
  repeat (rewrite env_get_set_other by (vm_compute; reflexivity)).

(** X10: whatever the server's base environ and the request's parameters
    hold, also under the same names, the environ that [_buildEnviron]
    returns binds [wsgi.version] to (1, 0), [wsgi.input] and [wsgi.errors]
    to the request's stdin and stderr, [wsgi.multithread] to the server's
    flag, [wsgi.multiprocess] to True and [wsgi.run_once] to False. *)
Theorem buildEnviron_wsgi_keys :
  forall (_environ : environ_t) (_multithreaded : bool) (req : Request.t)
         (params : dict),
    let environ := _buildEnviron _environ _multithreaded req params in
    env_get k_wsgi_version environ = Some (VTuple 1 0) /\
    env_get k_wsgi_input environ = Some (VStream (Request.stdin req)) /\
    env_get k_wsgi_errors environ = Some (VStream (Request.stderr req)) /\
    env_get k_wsgi_multithread environ = Some (VBool _multithreaded) /\
    env_get k_wsgi_multiprocess environ = Some (VBool true) /\
    env_get k_wsgi_run_once environ = Some (VBool false).
Proof.
  intros base mt req params. cbv zeta. unfold _buildEnviron.
  repeat split; skip_sets; apply env_get_set_same.
Qed.

(** X11: [wsgi.url_scheme] follows the value of HTTPS after the
    parameters are merged in: when the parameters bind HTTPS, the scheme is
    https exactly when that value is not empty, whatever the base environ
    says; otherwise it is https exactly when the base environ binds HTTPS
    to something true. *)
Theorem buildEnviron_url_scheme :
  forall (_environ : environ_t) (_multithreaded : bool) (req : Request.t)
         (params : dict),
    distinct_names params = true ->
    env_get k_wsgi_url_scheme (_buildEnviron _environ _multithreaded req params)
    = Some (VStr (match dict_get k_HTTPS params with
                  | Some v => if is_empty v then str_lit "http"%string
                              else str_lit "https"%string
                  | None => if truthy (env_get k_HTTPS _environ)
                            then str_lit "https"%string
                            else str_lit "http"%string
                  end)).
Proof.
  intros base mt req params Hd. unfold _buildEnviron.
  skip_sets. rewrite env_get_set_same.
  rewrite env_get_set_other by (vm_compute; reflexivity).
  rewrite (env_get_add_params k_HTTPS params base Hd).
  destruct (dict_get k_HTTPS params) as [v |]; [| reflexivity].
  cbn [truthy]. destruct (is_empty v); reflexivity.
Qed.

Lemma buildEnviron_url_scheme_witness :
  distinct_names environ_params_example = true /\
  env_get k_wsgi_url_scheme
    (_buildEnviron environ_base_example true (Request.init 1) environ_params_example)
  = Some (VStr (str_lit "https"%string)).
Proof.
  assert (H : distinct_names environ_params_example = true) by reflexivity.
  split; [exact H |].
  exact (buildEnviron_url_scheme environ_base_example true (Request.init 1)
           environ_params_example H).
Defined.

Lemma not_wsgi_key (k k' : bytes) :
  is_wsgi_key k = false -> In k' wsgi_keys -> bytes_eqb k' k = false.
Proof.
  intros Hk Hin. apply FcgiTheory.bytes_eqb_neq. intros ->.
  unfold is_wsgi_key in Hk.
  assert (Ht : existsb (bytes_eqb k) wsgi_keys = true).
  { apply existsb_exists. exists k. split; [exact Hin | apply FcgiTheory.bytes_eqb_refl]. }
  congruence.
Qed.

(** X12: under every name other than the seven [wsgi.*] keys the environ
    holds the request's parameter of that name, and the entry of the
    server's base environ only when the request has no such parameter. *)
Theorem buildEnviron_params_override_base :
  forall (_environ : environ_t) (_multithreaded : bool) (req : Request.t)
         (params : dict) (name : bytes),
    distinct_names params = true ->
    is_wsgi_key name = false ->
    env_get name (_buildEnviron _environ _multithreaded req params)
    = match dict_get name params with
      | Some value => Some (VStr value)
      | None => env_get name _environ
      end.
Proof.
  intros base mt req params name Hd Hk. unfold _buildEnviron.
  repeat (rewrite env_get_set_other
            by (apply (not_wsgi_key name _ Hk); unfold wsgi_keys; simpl; tauto)).
  apply env_get_add_params, Hd.
Qed.

Lemma buildEnviron_params_override_base_witness :
  distinct_names environ_params_example = true /\
  is_wsgi_key (str_lit "SERVER_NAME"%string) = false /\
  env_get (str_lit "SERVER_NAME"%string)
    (_buildEnviron environ_base_example true (Request.init 1) environ_params_example)
  = Some (VStr (str_lit "example.org"%string)).
Proof.
  assert (H : distinct_names environ_params_example = true) by reflexivity.
  assert (Hk : is_wsgi_key (str_lit "SERVER_NAME"%string) = false) by reflexivity.
  split; [exact H |].
  split; [exact Hk |].
  exact (buildEnviron_params_override_base environ_base_example true (Request.init 1)
           environ_params_example (str_lit "SERVER_NAME"%string) H Hk).
Defined.

(** ** CGI detection *)

Lemma lower_byte_y (b : byte) :
  lower_byte b = "y"%byte -> b = "y"%byte \/ b = "Y"%byte.
Proof. destruct b; vm_compute; intros H; try discriminate H; auto. Qed.

Lemma lower_byte_e (b : byte) :
  lower_byte b = "e"%byte -> b = "e"%byte \/ b = "E"%byte.
Proof. destruct b; vm_compute; intros H; try discriminate H; auto. Qed.

Lemma lower_byte_s (b : byte) :
  lower_byte b = "s"%byte -> b = "s"%byte \/ b = "S"%byte.
Proof. destruct b; vm_compute; intros H; try discriminate H; auto. Qed.

Lemma lower_byte_1 (b : byte) : lower_byte b = "1"%byte -> b = "1"%byte.
Proof. destruct b; vm_compute; intros H; try discriminate H; auto. Qed.

Lemma lower_accepts (v : bytes) :
  existsb (bytes_eqb (lower v))
    [str_lit "y"%string; str_lit "yes"%string; str_lit "1"%string] = true ->
  In v cgi_values.
Proof.
  intros H. apply existsb_exists in H. destruct H as (w & Hin & Heq).
  apply FcgiTheory.bytes_eqb_eq in Heq.
  simpl in Hin. destruct Hin as [<- | [<- | [<- | []]]].
  - destruct v as [| b [| ? ?]]; try discriminate Heq.
    injection Heq as Hb. destruct (lower_byte_y b Hb) as [-> | ->];
      vm_compute; tauto.
  - destruct v as [| b1 [| b2 [| b3 [| ? ?]]]]; try discriminate Heq.
    injection Heq as H1 H2 H3.
    destruct (lower_byte_y b1 H1) as [-> | ->];
      destruct (lower_byte_e b2 H2) as [-> | ->];
      destruct (lower_byte_s b3 H3) as [-> | ->];
      vm_compute; tauto.
  - destruct v as [| b [| ? ?]]; try discriminate Heq.
    injection Heq as Hb. rewrite (lower_byte_1 b Hb). vm_compute; tauto.
Qed.

(** X13: [_isCGI] says yes exactly when FCGI_FORCE_CGI is set to y, yes
    or 1 in any mix of upper and lower case: eleven values in all; a
    variable that is missing, empty or set to anything else, such as true
    or on, does not force CGI mode. *)
Theorem isCGI_accepts_exactly :
  forall os_environ : dict,
    _isCGI os_environ = true <->
    exists v : bytes,
      dict_get (str_lit "FCGI_FORCE_CGI"%string) os_environ = Some v /\
      In v cgi_values.
Proof.
  intros env. unfold _isCGI, dict_get_default. split.
  - intros H.
    destruct (dict_get (str_lit "FCGI_FORCE_CGI"%string) env) as [v |].
    + exists v. split; [reflexivity | apply lower_accepts, H].
    + vm_compute in H. discriminate H.
  - intros (v & Hget & Hin). rewrite Hget.
    unfold cgi_values in Hin. cbn [map In] in Hin.
    repeat (destruct Hin as [<- | Hin]; [vm_compute; reflexivity |]).
    destruct Hin.
Qed.

(** ** The decoder on any stream *)

Lemma sio_read_forward (n : Z) (f : StringIO) :
  sio_buf (snd (sio_read n f)) = sio_buf f /\
  (sio_pos f <= sio_pos (snd (sio_read n f)))%nat.
Proof. unfold sio_read. cbn [snd sio_buf sio_pos]. split; [reflexivity | lia]. Qed.

Lemma forward_refl (f : StringIO) : forward f f.
Proof. split; [reflexivity | lia]. Qed.

Lemma forward_trans (f g h : StringIO) : forward f g -> forward g h -> forward f h.
Proof. intros [H1 H2] [H3 H4]. split; [congruence | lia]. Qed.

Lemma read_forward (n : Z) (f s : StringIO) (r : result bytes) :
  read n f = (r, s) -> forward f s.
Proof.
  unfold read. pose proof (sio_read_forward n f) as H.
  destruct (sio_read n f) as [x f']. intros E. inversion E; subst. exact H.
Qed.

Lemma read_length_forward (f s : StringIO) (r : result (option Z)) :
  read_length f = (r, s) -> forward f s.
Proof.
  unfold read_length, bind.
  destruct (read 1 f) as [r1 f1] eqn:E1.
  pose proof (read_forward _ _ _ _ E1) as H1.
  destruct r1 as [x | e]; [| intros E; inversion E; subst; exact H1].
  destruct x as [| b0 t]; [unfold ret; intros E; inversion E; subst; exact H1 |].
  destruct (byte_to_Z b0 <? 128);
    [unfold ret; intros E; inversion E; subst; exact H1 |].
  destruct (read 3 f1) as [r3 f3] eqn:E3.
  pose proof (forward_trans _ _ _ H1 (read_forward _ _ _ _ E3)) as H3.
  destruct r3 as [y | e]; [| intros E; inversion E; subst; exact H3].
  destruct y as [| y1 [| y2 [| y3 [| y4 y]]]];
    unfold ret, raise; intros E; inversion E; subst; exact H3.
Qed.

Lemma readLengths_forward (f s : StringIO) (r : result (Z * Z)) :
  _readLengths f = (r, s) -> forward f s.
Proof.
  unfold _readLengths, bind.
  destruct (read_length f) as [r1 f1] eqn:E1.
  pose proof (read_length_forward _ _ _ E1) as H1.
  destruct r1 as [[n |] | e];
    try (unfold ret; intros E; inversion E; subst; exact H1).
  destruct (read_length f1) as [r2 f2] eqn:E2.
  pose proof (forward_trans _ _ _ H1 (read_length_forward _ _ _ E2)) as H2.
  destruct r2 as [[v |] | e]; unfold ret, raise; intros E; inversion E; subst;
    exact H2.
Qed.

Lemma decodeParams_loop_forward (fuel : nat) :
  forall (d : dict) (f s : StringIO) (r : result dict),
    decodeParams_loop fuel d f = Some (r, s) -> forward f s.
Proof.
  induction fuel as [| fuel IH]; intros d f s r H; [discriminate H |].
  cbn [decodeParams_loop] in H.
  destruct (_readLengths f) as [rl f1] eqn:E.
  pose proof (readLengths_forward _ _ _ E) as H1.
  destruct rl as [[a b] | e]; [| inversion H; subst; exact H1].
  destruct ((a =? 0) && (b =? 0)); [inversion H; subst; exact H1 |].
  pose proof (sio_read_forward a f1) as H2.
  destruct (sio_read a f1) as [name f2]. cbn [snd] in H2.
  pose proof (sio_read_forward b f2) as H3.
  destruct (sio_read b f2) as [value f3]. cbn [snd] in H3.
  apply IH in H.
  exact (forward_trans _ _ _ H1 (forward_trans _ _ _ H2 (forward_trans _ _ _ H3 H))).
Qed.

Lemma read_length_raises (g g' : StringIO) (x : exn) :
  read_length g = (Raise x, g') -> x = ProtocolError_TruncatedStream.
Proof.
  unfold read_length, bind, read.
  destruct (sio_read 1 g) as [x1 g1].
  destruct x1 as [| b0 t]; [unfold ret; intros E; discriminate E |].
  destruct (byte_to_Z b0 <? 128); [unfold ret; intros E; discriminate E |].
  destruct (sio_read 3 g1) as [y g3].
  destruct y as [| y1 [| y2 [| y3 [| y4 y]]]];
    unfold ret, raise; intros E; inversion E; reflexivity.
Qed.

Lemma readLengths_raises (g g' : StringIO) (x : exn) :
  _readLengths g = (Raise x, g') -> x = ProtocolError_TruncatedStream.
Proof.
  unfold _readLengths, bind.
  destruct (read_length g) as [r1 g1] eqn:E1.
  destruct r1 as [[n |] | y].
  - destruct (read_length g1) as [r2 g2] eqn:E2.
    destruct r2 as [[v |] | y]; unfold ret, raise; intros E; inversion E; subst.
    + reflexivity.
    + exact (read_length_raises _ _ _ E2).
  - unfold ret. intros E. discriminate E.
  - intros E. inversion E; subst. exact (read_length_raises _ _ _ E1).
Qed.

Lemma decodeParams_loop_raises (fuel : nat) :
  forall (d : dict) (f s : StringIO) (e : exn),
    decodeParams_loop fuel d f = Some (Raise e, s) ->
    e = ProtocolError_TruncatedStream.
Proof.
  induction fuel as [| fuel IH]; intros d f s e H; [discriminate H |].
  cbn [decodeParams_loop] in H.
  destruct (_readLengths f) as [rl f1] eqn:E.
  destruct rl as [[a b] | e'].
  - destruct ((a =? 0) && (b =? 0)); [discriminate H |].
    destruct (sio_read a f1) as [name f2].
    destruct (sio_read b f2) as [value f3].
    exact (IH _ _ _ _ H).
  - inversion H; subst. exact (readLengths_raises _ _ _ E).
Qed.

(** X14: on every stream, whatever its bytes, the loop of [_decodeParams]
    comes to an end, with a dict or with the exception of a cut length
    field; it leaves the content of the stream as it was and the position
    where it was or further on. *)
Theorem decodeParams_ends :
  forall stream : StringIO,
    exists (r : result dict) (s : StringIO),
      _decodeParams stream = Some (r, s) /\
      forward stream s /\
      (forall e, r = Raise e -> e = ProtocolError_TruncatedStream).
Proof.
  intros stream.
  destruct (FcgiTheory.decodeParams_returns stream) as ([r s] & H).
  exists r, s. split; [exact H |].
  split; [exact (decodeParams_loop_forward _ _ _ _ _ H) |].
  intros e He. subst r. exact (decodeParams_loop_raises _ _ _ _ _ H).
Qed.

(** ** The decoder on a stream with a terminator *)

Lemma decodeParams_loop_terminated (pairs : list (bytes * bytes)) (junk : bytes) :
  forall (fuel : nat) (d : dict) (f : StringIO),
    encodable pairs = true ->
    no_empty_pair pairs = true ->
    sio_remaining f = encodeNameValues pairs ++ [x00; x00] ++ junk ->
    (List.length pairs < fuel)%nat ->
    exists f',
      decodeParams_loop fuel d f
      = Some (Ok (fold_left (fun d p => dict_set (fst p) (snd p) d) pairs d), f') /\
      sio_remaining f' = junk.
Proof.
  induction pairs as [| [name value] ps IH]; intros fuel d f Henc Hne Hrem Hfuel.
  - destruct fuel as [| fuel']; [simpl in Hfuel; lia |].
    destruct (FcgiTheory.readLengths_encoded 0 0 junk f) as (f' & Hrl & Hf');
      [lia | lia | exact Hrem |].
    exists f'. simpl. rewrite Hrl. split; [reflexivity | exact Hf'].
  - destruct fuel as [| fuel']; [simpl in Hfuel; lia |].
    simpl in Henc, Hne, Hrem, Hfuel.
    apply andb_prop in Henc. destruct Henc as [Hlens Henc].
    apply andb_prop in Hlens. destruct Hlens as [Hln Hlv].
    apply Z.ltb_lt in Hln. apply Z.ltb_lt in Hlv.
    apply andb_prop in Hne. destruct Hne as [Hnz Hne].
    rewrite <- !app_assoc in Hrem.
    destruct (FcgiTheory.readLengths_encoded (len name) (len value)
                (name ++ value ++ encodeNameValues ps ++ [x00; x00] ++ junk) f)
      as (f1 & Hrl & Hf1).
    { pose proof (FcgiTheory.len_nonneg name). lia. }
    { pose proof (FcgiTheory.len_nonneg value). lia. }
    { exact Hrem. }
    destruct (FcgiTheory.sio_read_app name
                (value ++ encodeNameValues ps ++ [x00; x00] ++ junk) f1 Hf1)
      as (f2 & Hrn & Hf2).
    destruct (FcgiTheory.sio_read_app value
                (encodeNameValues ps ++ [x00; x00] ++ junk) f2 Hf2)
      as (f3 & Hrv & Hf3).
    destruct (IH fuel' (dict_set name value d) f3 Henc Hne Hf3) as (f' & Hloop & Hend).
    { lia. }
    exists f'. cbn [decodeParams_loop]. rewrite Hrl.
    rewrite <- !FcgiTheory.is_empty_len.
    apply negb_true_iff in Hnz. rewrite Hnz.
    rewrite Hrn, Hrv. split; [exact Hloop | exact Hend].
Qed.

(** X15: a pair of zero lengths ends the decoding: the pairs before it
    are returned, assigned in order, and what follows it in the stream,
    whatever it is, is left unread. *)
Theorem decodeParams_stops_at_terminator :
  forall (pairs : list (bytes * bytes)) (junk : bytes),
    encodable pairs = true ->
    no_empty_pair pairs = true ->
    exists s : StringIO,
      _decodeParams (StringIO_of (encodeNameValues pairs ++ [x00; x00] ++ junk))
      = Some (Ok (dict_of_pairs pairs), s) /\
      sio_remaining s = junk.
Proof.
  intros pairs junk Henc Hne. unfold _decodeParams.
  apply (decodeParams_loop_terminated pairs junk _ [] _ Henc Hne).
  - reflexivity.
  - unfold sio_remaining, StringIO_of. cbn [sio_pos sio_buf skipn].
    rewrite length_app. pose proof (FcgiTheory.encodeNameValues_length pairs). lia.
Qed.

Lemma decodeParams_stops_at_terminator_witness :
  encodable pairs_rebound = true /\
  no_empty_pair pairs_rebound = true /\
  exists s : StringIO,
    _decodeParams (StringIO_of (encodeNameValues pairs_rebound ++ [x00; x00]
                                ++ truncated_stream))
    = Some (Ok (dict_of_pairs pairs_rebound), s) /\
    sio_remaining s = truncated_stream.
Proof.
  split; [reflexivity |].
  split; [reflexivity |].
  apply (decodeParams_stops_at_terminator pairs_rebound truncated_stream);
    reflexivity.
Defined.

Lemma isCGI_accepts_exactly_witness :
  _isCGI [(str_lit "FCGI_FORCE_CGI"%string, str_lit "yEs"%string)] = true.
Proof.
  apply (proj2 (isCGI_accepts_exactly
                  [(str_lit "FCGI_FORCE_CGI"%string, str_lit "yEs"%string)])).
  exists (str_lit "yEs"%string). split; [reflexivity |].
  unfold cgi_values. simpl. tauto.
Defined.

Lemma decodeParams_ends_witness :
  exists (r : result dict) (s : StringIO),
    _decodeParams (StringIO_of ["128"%byte; "000"%byte]) = Some (r, s) /\
    forward (StringIO_of ["128"%byte; "000"%byte]) s /\
    (forall e, r = Raise e -> e = ProtocolError_TruncatedStream).
Proof. exact (decodeParams_ends (StringIO_of ["128"%byte; "000"%byte])). Defined.

End GatewayTheory.

(** * Properties of the rest of the OAuth account *)

Module OAuthFlowTheory.

Import OAuth OAuthFlow.

(** ** Which strings [validate_state] accepts *)

(** X16: [validate_state] accepts no string at all: whatever it is given,
    at whatever time, the result is False, the body of its [try] never
    getting as far as returning True. *)
Theorem validate_state_accepts_nothing :
  forall (sha256 : list byte -> list byte) (now : Q) (s : string),
    validate_state sha256 now s = false /\
    validate_state_try sha256 now s <> inl true.
Proof.
  intros sha256 now s. split; [apply OAuthTheory.validate_state_false |].
  destruct (OAuthTheory.validate_state_try_false sha256 now s) as [H | [e H]];
    rewrite H; discriminate.
Qed.

(** ** The shape of a generated token *)

Lemma all_chars_string_of_chars (p : ascii -> bool) (l : list ascii) :
  Forall (fun c => p c = true) l -> all_chars p (string_of_chars l) = true.
Proof.
  induction 1 as [| c l Hc Hl IH]; [reflexivity |].
  simpl. rewrite Hc, IH. reflexivity.
Qed.

Lemma length_string_of_chars (l : list ascii) :
  String.length (string_of_chars l) = List.length l.
Proof. induction l as [| c l IH]; simpl; [reflexivity | rewrite IH; reflexivity]. Qed.

Lemma pick_alnum (i : nat) : is_alnum (pick i) = true.
Proof.
  unfold pick. generalize (i mod String.length alphabet)%nat. intros j.
  do 62 (destruct j as [| j]; [reflexivity |]).
  reflexivity.
Qed.

Lemma hex_length (d : list byte) : String.length (hex d) = (2 * List.length d)%nat.
Proof. induction d as [| b d IH]; simpl; [reflexivity | rewrite IH; lia]. Qed.

Lemma hex_is_hex (d : list byte) : all_chars is_hex_lower (hex d) = true.
Proof.
  induction d as [| b d IH]; [reflexivity |].
  cbn [hex all_chars]. rewrite IH. destruct b; reflexivity.
Qed.

Lemma take_length (n : nat) (s : string) :
  String.length (take n s) = Nat.min n (String.length s).
Proof.
  revert s. induction n as [| n IH]; intros s; [reflexivity |].
  destruct s as [| c s]; [reflexivity |]. simpl. rewrite IH. reflexivity.
Qed.

Lemma take_all_chars (p : ascii -> bool) (n : nat) (s : string) :
  all_chars p s = true -> all_chars p (take n s) = true.
Proof.
  revert s. induction n as [| n IH]; intros s Hs; [reflexivity |].
  destruct s as [| c s]; [reflexivity |].
  simpl in *. apply andb_prop in Hs. destruct Hs as [Hc Hs].
  rewrite Hc, (IH s Hs). reflexivity.
Qed.

(** X18: a token made by [generate_state] splits at its colons into
    exactly three parts: 32 letters and digits, the time in whole seconds
    written in decimal, which [int] reads back, and lower-case hexadecimal
    digits, 16 of them when the digest has 8 bytes or more. *)
Theorem generate_state_shape :
  forall (sha256 : list byte -> list byte) (draw : nat -> nat) (t : Q),
    exists r ts h : string,
      split colon (generate_state sha256 draw t) = [r; ts; h] /\
      String.length r = 32%nat /\
      all_chars is_alnum r = true /\
      int_of_str ts = Some (int_of_float t) /\
      all_chars is_hex_lower h = true /\
      String.length h
      = Nat.min 16 (2 * List.length (sha256 (str_encode (r ++ ":" ++ ts)%string))).
Proof.
  intros sha256 draw t.
  exists (random_choices draw 32), (str_of_int (int_of_float t)),
    (state_hash_of sha256
       (random_choices draw 32 ++ ":" ++ str_of_int (int_of_float t))%string).
  destruct (OAuthTheory.generate_state_three_parts sha256 draw t)
    as (Hs & Hr & Hts & Hh).
  split; [rewrite Hs; apply OAuthTheory.split_three; assumption |].
  split.
  { unfold random_choices. rewrite length_string_of_chars, length_map, length_seq.
    reflexivity. }
  split.
  { unfold random_choices. apply all_chars_string_of_chars.
    apply Forall_map, Forall_forall. intros i _. apply pick_alnum. }
  split; [apply OAuthTheory.int_of_str_of_int |].
  unfold state_hash_of.
  split; [apply take_all_chars, hex_is_hex |].
  rewrite take_length, hex_length. reflexivity.
Qed.

(** ** Provider errors *)

(** X19: [handle_oauth_error] always raises HTTP 400.  For each of the
    seven error codes it knows, the body is the fixed message of that
    code, whatever description the provider sent; a response without an
    error code gets the provider's description as body, or "Unknown
    error" when there is none. *)
Theorem handle_oauth_error_message :
  forall (error_response : sdict),
    http_status (snd (handle_oauth_error error_response)) = 400 /\
    (forall code msg : string,
        sdict_get "error" error_response = Some code ->
        In (code, msg) error_mapping ->
        http_body (snd (handle_oauth_error error_response)) = msg) /\
    (sdict_get "error" error_response = None ->
     http_body (snd (handle_oauth_error error_response))
     = sdict_get_default "error_description" "Unknown error" error_response).
Proof.
  intros resp. unfold handle_oauth_error. cbv zeta.
  cbn [snd http_status http_body].
  split; [reflexivity |]. split.
  - intros code msg Hcode Hin.
    unfold sdict_get_default at 1. unfold sdict_get_default at 1.
    rewrite Hcode.
    unfold error_mapping in Hin. cbn [In] in Hin.
    repeat (destruct Hin as [Hin | Hin];
            [injection Hin as <- <-; reflexivity |]).
    destruct Hin.
  - intros Hnone.
    unfold sdict_get_default at 1. unfold sdict_get_default at 1.
    rewrite Hnone. reflexivity.
Qed.

(** ** Calls with retries *)

Lemma after_fst (evs : list event) (r : api_result * list event) :
  fst (after evs r) = fst r.
Proof. reflexivity. Qed.

Lemma after_snd (evs : list event) (r : api_result * list event) :
  snd (after evs r) = evs ++ snd r.
Proof. reflexivity. Qed.

Lemma calls_app (a b : list event) : calls (a ++ b) = calls a ++ calls b.
Proof. unfold calls. apply flat_map_app. Qed.

Lemma load_global_socket : load_global "socket" = Some (NameError "socket").
Proof. reflexivity. Qed.

Lemma api_loop_calls (urlopen : nat -> outcome) (retries : Z) (todo : nat) :
  forall attempt : nat,
    (List.length (calls (snd (api_loop urlopen retries todo attempt))) <= todo)%nat.
Proof.
  induction todo as [| todo IH]; intros attempt; [simpl; lia |].
  cbn [api_loop]. rewrite load_global_socket.
  destruct (urlopen attempt) as [body | code | | |]; try (simpl; lia).
  destruct (is_client_error code); [simpl; lia |].
  destruct (Z.of_nat attempt =? retries - 1); [simpl; lia |].
  rewrite after_snd, calls_app, length_app. specialize (IH (S attempt)). simpl. lia.
Qed.

Lemma api_loop_not_none (urlopen : nat -> outcome) (retries : Z) (todo : nat) :
  forall attempt : nat,
    Z.of_nat (attempt + S todo) = retries ->
    fst (api_loop urlopen retries (S todo) attempt) <> Returned None.
Proof.
  induction todo as [| todo IH]; intros attempt Hsum.
  - cbn [api_loop]. rewrite load_global_socket.
    replace (Z.of_nat attempt =? retries - 1) with true by lia.
    destruct (urlopen attempt) as [body | code | | |];
      try destruct (is_client_error code); simpl; discriminate.
  - remember (S todo) as k. cbn [api_loop]. rewrite load_global_socket.
    replace (Z.of_nat attempt =? retries - 1) with false by lia.
    destruct (urlopen attempt) as [body | code | | |];
      try destruct (is_client_error code);
      try (simpl; discriminate);
      rewrite after_fst; subst k; apply IH; lia.
Qed.

(** X20: [robust_api_call] makes at most [retries] calls.  With
    [retries] zero or negative it makes none, sleeps never and returns
    None; with [retries] positive it never returns None: it returns a body
    or raises. *)
Theorem robust_api_call_bounded :
  forall (urlopen : nat -> outcome) (retries : Z),
    (List.length (calls (snd (robust_api_call urlopen retries)))
     <= Z.to_nat retries)%nat /\
    (retries <= 0 -> robust_api_call urlopen retries = (Returned None, [])) /\
    (0 < retries -> fst (robust_api_call urlopen retries) <> Returned None).
Proof.
  intros urlopen retries. unfold robust_api_call.
  split; [apply api_loop_calls |]. split.
  - intros Hle. replace (Z.to_nat retries) with 0%nat by lia. reflexivity.
  - intros Hpos.
    destruct (Z.to_nat retries) as [| todo] eqn:E; [lia |].
    apply api_loop_not_none. lia.
Qed.

Lemma retry_step (urlopen : nat -> outcome) (retries : Z) (todo attempt : nat) :
  is_retried_failure (urlopen attempt) ->
  Z.of_nat attempt <> retries - 1 ->
  api_loop urlopen retries (S todo) attempt
  = after [Urlopen attempt] (api_loop urlopen retries todo (S attempt)).
Proof.
  intros (code & Ho & Hcode) Hlast. cbn [api_loop]. rewrite Ho, Hcode.
  replace (Z.of_nat attempt =? retries - 1) with false by lia.
  reflexivity.
Qed.

Lemma success_step (urlopen : nat -> outcome) (retries : Z) (todo attempt : nat)
      (body : string) :
  urlopen attempt = Success body ->
  api_loop urlopen retries (S todo) attempt
  = (Returned (Some body), [Urlopen attempt]).
Proof. intros Ho. cbn [api_loop]. rewrite Ho. reflexivity. Qed.

Lemma client_error_step (urlopen : nat -> outcome) (retries : Z)
      (todo attempt : nat) (code : Z) :
  urlopen attempt = HTTPError code ->
  is_client_error code = true ->
  api_loop urlopen retries (S todo) attempt
  = (Raised (HTTPError code), [Urlopen attempt]).
Proof. intros Ho Hcode. cbn [api_loop]. rewrite Ho, Hcode. reflexivity. Qed.

Lemma other_failure_step (urlopen : nat -> outcome) (retries : Z)
      (todo attempt : nat) :
  is_other_failure (urlopen attempt) ->
  api_loop urlopen retries (S todo) attempt
  = (RaisedExn (NameError "socket"), [Urlopen attempt]).
Proof.
  intros [Ho | [Ho | Ho]]; cbn [api_loop]; rewrite Ho, load_global_socket;
    reflexivity.
Qed.

Lemma last_step (urlopen : nat -> outcome) (retries : Z) (todo attempt : nat) :
  is_retried_failure (urlopen attempt) ->
  Z.of_nat attempt = retries - 1 ->
  api_loop urlopen retries (S todo) attempt
  = (Raised (urlopen attempt), [Urlopen attempt]).
Proof.
  intros (code & Ho & Hcode) Hlast. cbn [api_loop]. rewrite Ho, Hcode.
  replace (Z.of_nat attempt =? retries - 1) with true by lia.
  reflexivity.
Qed.

(** The turns before the one at which the loop stops: [k] calls, one
    after the other. *)
Lemma api_loop_retries (urlopen : nat -> outcome) (retries : Z) (k : nat) :
  forall todo attempt : nat,
    Z.of_nat (attempt + k) < retries ->
    (forall j : nat, (attempt <= j < attempt + k)%nat ->
                     is_retried_failure (urlopen j)) ->
    api_loop urlopen retries (k + todo) attempt
    = after (map Urlopen (seq attempt k))
        (api_loop urlopen retries todo (attempt + k)).
Proof.
  induction k as [| k IH]; intros todo attempt Hlt Hbefore.
  - rewrite Nat.add_0_r. cbn [Nat.add seq map].
    destruct (api_loop urlopen retries todo attempt); reflexivity.
  - change (S k + todo)%nat with (S (k + todo)).
    rewrite retry_step; [| apply Hbefore; lia | lia].
    rewrite (IH todo (S attempt)); [| lia | intros j Hj; apply Hbefore; lia].
    replace (S attempt + k)%nat with (attempt + S k)%nat by lia.
    unfold after. cbn [fst snd seq map]. reflexivity.
Qed.

Lemma robust_api_call_reaches (urlopen : nat -> outcome) (retries : Z) (i : nat) :
  Z.of_nat i < retries ->
  (forall j : nat, (j < i)%nat -> is_retried_failure (urlopen j)) ->
  exists todo : nat,
    robust_api_call urlopen retries
    = after (map Urlopen (seq 0 i)) (api_loop urlopen retries (S todo) i) /\
    Z.of_nat (i + S todo) = retries.
Proof.
  intros Hi Hbefore. exists (Z.to_nat retries - S i)%nat.
  unfold robust_api_call.
  replace (Z.to_nat retries) with (i + S (Z.to_nat retries - S i))%nat at 1 by lia.
  split; [| lia].
  apply (api_loop_retries urlopen retries i _ 0%nat).
  - cbn [Nat.add]. exact Hi.
  - intros j Hj. apply Hbefore. lia.
Qed.

Lemma after_one (r : api_result) (a : nat) :
  after (map Urlopen (seq 0 a)) (r, [Urlopen a]) = (r, map Urlopen (seq 0 (S a))).
Proof.
  unfold after. cbn [fst snd]. rewrite seq_S, map_app. reflexivity.
Qed.

(** X21: the calls stop at the first outcome that is not an [HTTPError]
    with a code other than 400, 401 and 403: a body is returned; an
    [HTTPError] 400, 401 or 403 is raised as it is; any other exception, a
    [URLError] or a time-out included, is not retried and does not come out
    either: reading [socket] in the [except] clause raises NameError, the
    module not importing it.  No call follows, and the calls before were
    made one after the other, with no sleep between them. *)
Theorem robust_api_call_stops_at_first :
  forall (urlopen : nat -> outcome) (retries : Z) (i : nat),
    Z.of_nat i < retries ->
    (forall j : nat, (j < i)%nat -> is_retried_failure (urlopen j)) ->
    (forall body : string,
        urlopen i = Success body ->
        robust_api_call urlopen retries
        = (Returned (Some body), map Urlopen (seq 0 (S i)))) /\
    (forall code : Z,
        urlopen i = HTTPError code ->
        is_client_error code = true ->
        robust_api_call urlopen retries
        = (Raised (HTTPError code), map Urlopen (seq 0 (S i)))) /\
    (is_other_failure (urlopen i) ->
     robust_api_call urlopen retries
     = (RaisedExn (NameError "socket"), map Urlopen (seq 0 (S i)))).
Proof.
  intros urlopen retries i Hi Hbefore.
  destruct (robust_api_call_reaches urlopen retries i Hi Hbefore)
    as (todo & Hrun & _).
  rewrite Hrun. split; [| split].
  - intros body Ho. rewrite (success_step urlopen retries todo i body Ho).
    apply after_one.
  - intros code Ho Hcode.
    rewrite (client_error_step urlopen retries todo i code Ho Hcode).
    apply after_one.
  - intros Ho. rewrite (other_failure_step urlopen retries todo i Ho).
    apply after_one.
Qed.

Lemma robust_api_call_stops_at_first_witness :
  (Z.of_nat 2 < 3 /\
   (forall j : nat, (j < 2)%nat -> is_retried_failure (urlopen_third j)) /\
   robust_api_call urlopen_third 3
   = (Returned (Some "ok"%string), [Urlopen 0; Urlopen 1; Urlopen 2])) /\
  (Z.of_nat 1 < 3 /\
   (forall j : nat, (j < 1)%nat -> is_retried_failure (urlopen_refused j)) /\
   robust_api_call urlopen_refused 3
   = (Raised (HTTPError 401), [Urlopen 0; Urlopen 1])) /\
  (Z.of_nat 1 < 3 /\
   (forall j : nat, (j < 1)%nat -> is_retried_failure (urlopen_down j)) /\
   is_other_failure (urlopen_down 1) /\
   robust_api_call urlopen_down 3
   = (RaisedExn (NameError "socket"), [Urlopen 0; Urlopen 1])).
Proof.
  assert (H1 : Z.of_nat 2 < 3) by reflexivity.
  assert (H2 : forall j : nat, (j < 2)%nat -> is_retried_failure (urlopen_third j)).
  { intros j Hj. destruct j as [| [| j]]; [| | lia].
    - exists 500. split; reflexivity.
    - exists 503. split; reflexivity. }
  assert (H3 : Z.of_nat 1 < 3) by reflexivity.
  assert (H4 : forall j : nat, (j < 1)%nat -> is_retried_failure (urlopen_refused j)).
  { intros j Hj. destruct j as [| j]; [| lia]. exists 503. split; reflexivity. }
  assert (H5 : forall j : nat, (j < 1)%nat -> is_retried_failure (urlopen_down j)).
  { intros j Hj. destruct j as [| j]; [| lia]. exists 503. split; reflexivity. }
  assert (H6 : is_other_failure (urlopen_down 1)) by (left; reflexivity).
  split; [| split].
  - split; [exact H1 |]. split; [exact H2 |].
    exact (proj1 (robust_api_call_stops_at_first urlopen_third 3 2 H1 H2)
             "ok"%string eq_refl).
  - split; [exact H3 |]. split; [exact H4 |].
    exact (proj1 (proj2 (robust_api_call_stops_at_first urlopen_refused 3 1 H3 H4))
             401 eq_refl eq_refl).
  - split; [exact H3 |]. split; [exact H5 |]. split; [exact H6 |].
    exact (proj2 (proj2 (robust_api_call_stops_at_first urlopen_down 3 1 H3 H5)) H6).
Defined.

(** X22: when every call fails with an [HTTPError] whose code is none of
    400, 401 and 403, exactly [retries] calls are made, one after the
    other with no sleep between them, and the [HTTPError] of the last call
    is raised. *)
Theorem robust_api_call_gives_up :
  forall (urlopen : nat -> outcome) (retries : Z),
    0 < retries ->
    (forall j : nat, Z.of_nat j < retries -> is_retried_failure (urlopen j)) ->
    robust_api_call urlopen retries
    = (Raised (urlopen (Z.to_nat retries - 1)%nat),
       map Urlopen (seq 0 (Z.to_nat retries))).
Proof.
  intros urlopen retries Hpos Hall.
  destruct (Z.to_nat retries) as [| n] eqn:E; [lia |].
  replace (S n - 1)%nat with n by lia.
  destruct (robust_api_call_reaches urlopen retries n ltac:(lia)
              ltac:(intros j Hj; apply Hall; lia)) as (todo & Hrun & Hsum).
  rewrite Hrun.
  rewrite (last_step urlopen retries todo n); [| apply Hall; lia | lia].
  apply after_one.
Qed.

Lemma robust_api_call_gives_up_witness :
  0 < 3 /\
  (forall j : nat, Z.of_nat j < 3 -> is_retried_failure (urlopen_unavailable j)) /\
  robust_api_call urlopen_unavailable 3
  = (Raised (HTTPError 503), [Urlopen 0; Urlopen 1; Urlopen 2]).
Proof.
  assert (H1 : 0 < 3) by reflexivity.
  assert (H2 : forall j : nat, Z.of_nat j < 3 -> is_retried_failure (urlopen_unavailable j)).
  { intros j _. exists 503. split; reflexivity. }
  split; [exact H1 |].
  split; [exact H2 |].
  exact (robust_api_call_gives_up urlopen_unavailable 3 H1 H2).
Defined.

Lemma api_loop_events (urlopen : nat -> outcome) (retries : Z) (todo : nat) :
  forall attempt : nat,
    exists n : nat,
      snd (api_loop urlopen retries todo attempt) = map Urlopen (seq attempt n).
Proof.
  induction todo as [| todo IH]; intros attempt; [exists 0%nat; reflexivity |].
  cbn [api_loop]. rewrite load_global_socket.
  destruct (urlopen attempt) as [body | code | | |];
    try (exists 1%nat; reflexivity).
  destruct (is_client_error code); [exists 1%nat; reflexivity |].
  destruct (Z.of_nat attempt =? retries - 1); [exists 1%nat; reflexivity |].
  destruct (IH (S attempt)) as [n Hn]. exists (S n).
  rewrite after_snd, Hn. reflexivity.
Qed.

Lemma sleeps_calls_only (l : list nat) : sleeps (map Urlopen l) = [].
Proof. induction l as [| a l IH]; [reflexivity | exact IH]. Qed.

(** X26: [robust_api_call] never sleeps: the back-off of its last line is
    in the clause that reading [socket] leaves with a NameError, and an
    [HTTPError] is retried at once.  Its calls are numbered from 0 on
    without a gap. *)
Theorem robust_api_call_never_sleeps :
  forall (urlopen : nat -> outcome) (retries : Z),
    sleeps (snd (robust_api_call urlopen retries)) = [] /\
    exists n : nat,
      snd (robust_api_call urlopen retries) = map Urlopen (seq 0 n).
Proof.
  intros urlopen retries. unfold robust_api_call.
  destruct (api_loop_events urlopen retries (Z.to_nat retries) 0) as [n Hn].
  rewrite Hn. split; [apply sleeps_calls_only | exists n; reflexivity].
Qed.

Lemma robust_api_call_bounded_witness :
  (List.length (calls (snd (robust_api_call urlopen_forbidden 5))) <= Z.to_nat 5)%nat /\
  robust_api_call urlopen_forbidden 0 = (Returned None, []) /\
  fst (robust_api_call urlopen_forbidden 5) <> Returned None.
Proof.
  split; [exact (proj1 (robust_api_call_bounded urlopen_forbidden 5)) |].
  split.
  - apply (proj1 (proj2 (robust_api_call_bounded urlopen_forbidden 0))). discriminate.
  - apply (proj2 (proj2 (robust_api_call_bounded urlopen_forbidden 5))). reflexivity.
Defined.

Lemma handle_oauth_error_message_witness :
  sdict_get "error" error_response_example = Some "access_denied"%string /\
  In ("access_denied", "User denied authorization")%string error_mapping /\
  http_status (snd (handle_oauth_error error_response_example)) = 400 /\
  http_body (snd (handle_oauth_error error_response_example))
  = "User denied authorization"%string.
Proof.
  assert (H1 : sdict_get "error" error_response_example = Some "access_denied"%string)
    by reflexivity.
  assert (H2 : In ("access_denied", "User denied authorization")%string error_mapping).
  { unfold error_mapping. simpl. tauto. }
  split; [exact H1 |].
  split; [exact H2 |].
  destruct (handle_oauth_error_message error_response_example) as (Hs & Hknown & _).
  split; [exact Hs |].
  exact (Hknown _ _ H1 H2).
Defined.

(** ** The authorization URL *)

Lemma all_chars_app (p : ascii -> bool) (a b : string) :
  all_chars p (a ++ b) = all_chars p a && all_chars p b.
Proof.
  induction a as [| c a IH]; [reflexivity |].
  simpl. rewrite IH. apply andb_assoc.
Qed.

Lemma quote_plus_byte_quoted (b : byte) :
  all_chars is_quoted_char (quote_plus_byte b) = true.
Proof. destruct b; reflexivity. Qed.

Lemma concat_quoted (l : list string) :
  Forall (fun s => all_chars is_quoted_char s = true) l ->
  all_chars is_quoted_char (String.concat EmptyString l) = true.
Proof.
  induction 1 as [| s l Hs Hl IH]; [reflexivity |].
  destruct l as [| s' l]; [exact Hs |].
  change (String.concat EmptyString (s :: s' :: l))
    with (s ++ String.concat EmptyString (s' :: l))%string.
  rewrite all_chars_app, Hs, IH. reflexivity.
Qed.

Lemma quote_plus_quoted (s : string) :
  all_chars is_quoted_char (quote_plus s) = true.
Proof.
  unfold quote_plus. apply concat_quoted.
  apply Forall_map, Forall_forall. intros b _. apply quote_plus_byte_quoted.
Qed.

Lemma quoted_not (sep : ascii) :
  is_quoted_char sep = false ->
  forall s : string,
    all_chars is_quoted_char s = true ->
    all_chars (fun c => negb (Ascii.eqb c sep)) s = true.
Proof.
  intros Hsep s. apply OAuthTheory.all_chars_impl. intros c Hc.
  destruct (Ascii.eqb c sep) eqn:E; [| reflexivity].
  apply Ascii.eqb_eq in E. subst c. congruence.
Qed.

Lemma split_sep_app (sep : ascii) (a b : string) :
  all_chars (fun c => negb (Ascii.eqb c sep)) a = true ->
  split sep (a ++ String sep b) = a :: split sep b.
Proof.
  induction a as [| c a IH]; intros Ha.
  - simpl. rewrite Ascii.eqb_refl. reflexivity.
  - simpl in Ha. apply andb_prop in Ha. destruct Ha as [Hc Ha].
    apply negb_true_iff in Hc.
    simpl. rewrite Hc, (IH Ha). reflexivity.
Qed.

Lemma split_sep_single (sep : ascii) (a : string) :
  all_chars (fun c => negb (Ascii.eqb c sep)) a = true -> split sep a = [a].
Proof.
  induction a as [| c a IH]; intros Ha.
  - reflexivity.
  - simpl in Ha. apply andb_prop in Ha. destruct Ha as [Hc Ha].
    apply negb_true_iff in Hc.
    simpl. rewrite Hc, (IH Ha). reflexivity.
Qed.

(** A field [key=value] of the query, with a plain key and a quoted
    value: no [&] in it, and one [=]. *)
Lemma field_splits (key value : string) :
  all_chars is_unreserved key = true ->
  all_chars (fun c => negb (Ascii.eqb c "&")) (key ++ "=" ++ quote_plus value) = true /\
  split "=" (key ++ "=" ++ quote_plus value) = [key; quote_plus value].
Proof.
  intros Hkey.
  assert (Hq : all_chars is_quoted_char key = true).
  { apply (OAuthTheory.all_chars_impl is_unreserved is_quoted_char key);
      [| exact Hkey].
    intros c Hc. unfold is_quoted_char. rewrite Hc. reflexivity. }
  pose proof (quote_plus_quoted value) as Hv.
  split.
  - change (key ++ "=" ++ quote_plus value)%string
      with (key ++ String "=" (quote_plus value))%string.
    rewrite all_chars_app. cbn [all_chars].
    rewrite (quoted_not "&" eq_refl key Hq), (quoted_not "&" eq_refl _ Hv).
    reflexivity.
  - change (key ++ "=" ++ quote_plus value)%string
      with (key ++ String "=" (quote_plus value))%string.
    rewrite split_sep_app by (apply (quoted_not "=" eq_refl key Hq)).
    rewrite split_sep_single by (apply (quoted_not "=" eq_refl _ Hv)).
    reflexivity.
Qed.

(** X23: the URL is [auth_url], a question mark and a query that, split
    at [&] and then at [=], gives exactly the five keys client_id,
    redirect_uri, scope, response_type and state, in this order, each with
    its quoted value: whatever characters the fields of the account hold,
    they cannot add, remove or rename a parameter; [response_type] is
    always code, and a quoted value has only letters, digits and
    [_.-~+%]. *)
Theorem get_authorization_url_fields :
  forall self : OAuthAccount,
    exists query : string,
      get_authorization_url self = (auth_url self ++ "?" ++ query)%string /\
      map (split "=") (split "&" query)
      = [["client_id"; quote_plus (client_id self)];
         ["redirect_uri"; quote_plus (callback_url self)];
         ["scope"; quote_plus (scope self)];
         ["response_type"; "code"];
         ["state"; quote_plus (state self)]]%string /\
      Forall (fun v => all_chars is_quoted_char (quote_plus v) = true)
        [client_id self; callback_url self; scope self; state self].
Proof.
  intros self.
  destruct (field_splits "client_id" (client_id self) eq_refl) as [A1 B1].
  destruct (field_splits "redirect_uri" (callback_url self) eq_refl) as [A2 B2].
  destruct (field_splits "scope" (scope self) eq_refl) as [A3 B3].
  destruct (field_splits "response_type" "code" eq_refl) as [A4 B4].
  destruct (field_splits "state" (state self) eq_refl) as [A5 B5].
  eexists. split; [reflexivity |]. split.
  - unfold urlencode. cbn [map fst snd String.concat].
    change (quote_plus "client_id") with "client_id"%string.
    change (quote_plus "redirect_uri") with "redirect_uri"%string.
    change (quote_plus "scope") with "scope"%string.
    change (quote_plus "response_type") with "response_type"%string.
    change (quote_plus "state") with "state"%string.
    repeat match goal with
    | |- context [(?f ++ "&" ++ ?rest)%string] =>
        change (f ++ "&" ++ rest)%string with (f ++ String "&" rest)%string
    end.
    rewrite (split_sep_app "&" _ _ A1), (split_sep_app "&" _ _ A2),
      (split_sep_app "&" _ _ A3), (split_sep_app "&" _ _ A4),
      (split_sep_single "&" _ A5).
    cbn [map]. rewrite B1, B2, B3, B4, B5. reflexivity.
  - repeat constructor; apply quote_plus_quoted.
Qed.

(** ** Users *)

(** X24: a profile without an email, or with an empty one, is refused
    with [ValueError] before the database is looked at: the database is
    left as it was. *)
Theorem register_requires_email :
  forall (Db User : Type) (select_by_email : Db -> string -> option User)
         (insert_user : sdict -> Db -> Db * User)
         (update_user_profile : User -> sdict -> Db -> Db)
         (user_info : sdict) (db : Db),
    sdict_get_default "email" "" user_info = ""%string ->
    register_or_update_user select_by_email insert_user update_user_profile
      user_info db
    = (inl (ValueError "Email required for user registration"), db).
Proof.
  intros Db User sel ins upd info db Hemail.
  unfold register_or_update_user. unfold sdict_get_default in Hemail.
  destruct (sdict_get "email" info) as [[| c email] |];
    [reflexivity | discriminate Hemail | reflexivity].
Qed.

Lemma register_requires_email_witness :
  sdict_get_default "email" "" error_response_example = ""%string /\
  register_or_update_user select_example insert_example update_example
    error_response_example [user_info_example]
  = (inl (ValueError "Email required for user registration"), [user_info_example]).
Proof.
  assert (H : sdict_get_default "email" "" error_response_example = ""%string)
    by reflexivity.
  split; [exact H |].
  exact (register_requires_email (list sdict) sdict select_example insert_example
           update_example error_response_example [user_info_example] H).
Defined.

(** X25: when no user has the email of a profile, the profile is
    inserted, once, with the password placeholder oauth and an empty
    registration key whatever the profile itself says under these names,
    with the profile's email, and with the email as username when the
    profile has no username. *)
Theorem register_new_user_data :
  forall (Db User : Type) (select_by_email : Db -> string -> option User)
         (insert_user : sdict -> Db -> Db * User)
         (update_user_profile : User -> sdict -> Db -> Db)
         (user_info : sdict) (db : Db) (email : string),
    sdict_get "email" user_info = Some email ->
    email <> ""%string ->
    select_by_email db email = None ->
    exists user_data : sdict,
      register_or_update_user select_by_email insert_user update_user_profile
        user_info db
      = (inr (snd (insert_user user_data db)), fst (insert_user user_data db)) /\
      sdict_get "password" user_data = Some "oauth"%string /\
      sdict_get "registration_key" user_data = Some ""%string /\
      sdict_get "email" user_data = Some email /\
      sdict_get "username" user_data
      = Some (sdict_get_default "username" email user_info).
Proof.
  intros Db User sel ins upd info db email Hemail Hne Hsel.
  exists [("first_name", sdict_get_default "first_name" "" info);
          ("last_name", sdict_get_default "last_name" "" info);
          ("email", email);
          ("username", sdict_get_default "username" email info);
          ("password", "oauth");
          ("registration_key", "");
          ("registration_id", sdict_get_default "id" "" info)]%string.
  split.
  - unfold register_or_update_user, create_new_user, user_data_of.
    rewrite Hemail. destruct email as [| c email]; [congruence |].
    rewrite Hsel. destruct (ins _ db) as [db' user].
    reflexivity.
  - repeat split; reflexivity.
Qed.

Lemma register_new_user_data_witness :
  sdict_get "email" user_info_example = Some "ada@example.org"%string /\
  "ada@example.org"%string <> ""%string /\
  select_example [] "ada@example.org" = None /\
  exists user_data : sdict,
    register_or_update_user select_example insert_example update_example
      user_info_example []
    = (inr (snd (insert_example user_data [])), fst (insert_example user_data [])) /\
    sdict_get "password" user_data = Some "oauth"%string /\
    sdict_get "registration_key" user_data = Some ""%string /\
    sdict_get "email" user_data = Some "ada@example.org"%string /\
    sdict_get "username" user_data
    = Some (sdict_get_default "username" "ada@example.org" user_info_example).
Proof.
  assert (H1 : sdict_get "email" user_info_example = Some "ada@example.org"%string)
    by reflexivity.
  assert (H2 : "ada@example.org"%string <> ""%string) by discriminate.
  assert (H3 : select_example [] "ada@example.org" = None) by reflexivity.
  split; [exact H1 |].
  split; [exact H2 |].
  split; [exact H3 |].
  exact (register_new_user_data (list sdict) sdict select_example insert_example
           update_example user_info_example [] "ada@example.org"%string H1 H2 H3).
Defined.

End OAuthFlowTheory.
